(** * Option pricing: CRR binomial lattice, Monte Carlo engine and payoff sandbox

    A shallow embedding of [binomial_pricing.py], [monte_carlo_pricing.py]
    and the request handlers of [web_app.py].

    Python floats are kept abstract: every definition is parametric in a
    [PyFloat] structure that supplies the arithmetic the code calls
    ([+ - * /], [**], [math.exp], [math.sqrt], the comparisons) together with
    the exceptions those operations can raise.  Exceptions are threaded
    through an error monad [result]; lists mutated in place are modelled with
    stdpp's list lookup and insert, with Python's [IndexError] written out.

    Two instances of the arithmetic are given: the real numbers, in which
    the theorems are instantiated, and rounded rationals, which run. *)

From Stdlib Require Import ZArith Ascii String List Bool Lia QArith Qabs Qround Reals Lra.
From stdpp Require Import base option list strings gmap pretty.

Local Open Scope string_scope.
Local Open Scope list_scope.

(** ** Exceptions and the error monad *)

Inductive exn : Type :=
| InvalidParameterError (msg : string)
| InvalidMonteCarloParameterError (msg : string)
| InvalidPayoffError (msg : string)
| ZeroDivisionError
| OverflowError
| ValueError
| IndexError
| TypeError
| NameError
| SyntaxError.

Inductive result (A : Type) : Type :=
| Ok (a : A)
| Raise (e : exn).

Arguments Ok {A} a.
Arguments Raise {A} e.

Definition bind {A B : Type} (m : result A) (k : A -> result B) : result B :=
  match m with
  | Ok a => k a
  | Raise e => Raise e
  end.

Notation "x <- m ;; k" := (bind m (fun x => k))
  (at level 100, m at next level, right associativity).
Notation "m ;;; k" := (bind m (fun _ => k))
  (at level 100, right associativity).

(** [for x in xs: acc = f acc x], stopping at the first exception. *)
Fixpoint foldM {A B : Type} (f : A -> B -> result A) (a : A) (xs : list B)
  : result A :=
  match xs with
  | [] => Ok a
  | x :: xs' => a' <- f a x ;; foldM f a' xs'
  end.

(** [[f x for x in xs]], stopping at the first exception. *)
Fixpoint mapM {A B : Type} (f : A -> result B) (xs : list A) : result (list B) :=
  match xs with
  | [] => Ok []
  | x :: xs' => y <- f x ;; ys <- mapM f xs' ;; Ok (y :: ys)
  end.

(** [for x in xs: f(x)], stopping at the first exception. *)
Definition each {A : Type} (f : A -> result unit) : list A -> result unit :=
  fix go (xs : list A) : result unit :=
    match xs with
    | [] => Ok tt
    | x :: xs' => f x ;;; go xs'
    end.

(** [range(n)]: empty when [n <= 0]. *)
Definition range (n : Z) : list nat := seq 0 (Z.to_nat n).

(** [xs[i]] and [xs[i] = v] for a non-negative index. *)
Definition getitem {A : Type} (xs : list A) (i : nat) : result A :=
  match xs !! i with
  | Some v => Ok v
  | None => Raise IndexError
  end.

Definition setitem {A : Type} (xs : list A) (i : nat) (v : A) : result (list A) :=
  if (i <? length xs)%nat then Ok (<[i := v]> xs) else Raise IndexError.

(** ** Python float arithmetic *)

Class PyFloat (F : Type) : Type := {
  f_zero : F;
  f_one : F;
  f_half : F;
  f_add : F -> F -> F;
  f_sub : F -> F -> F;
  f_mul : F -> F -> F;
  f_neg : F -> F;
  (** quotient by a divisor that is not zero *)
  f_quot : F -> F -> F;
  f_eqb : F -> F -> bool;
  f_leb : F -> F -> bool;
  f_gtb : F -> F -> bool;
  (** implicit [int] to [float] conversion; overflows on huge integers *)
  float_of_int : Z -> result F;
  (** [x ** n] for an integer exponent *)
  float_pow : F -> Z -> result F;
  math_exp : F -> result F;
  math_sqrt : F -> result F
}.

Declare Scope pyfloat_scope.
Delimit Scope pyfloat_scope with fl.
Infix "+" := f_add : pyfloat_scope.
Infix "-" := f_sub : pyfloat_scope.
Infix "*" := f_mul : pyfloat_scope.
Notation "- x" := (f_neg x) : pyfloat_scope.
Infix "<=?" := f_leb : pyfloat_scope.
Infix ">?" := f_gtb : pyfloat_scope.

Section Float.
Context {F : Type} `{PyFloat F}.

(** [a / b]: float division raises on a zero divisor. *)
Definition truediv (a b : F) : result F :=
  if f_eqb b f_zero then Raise ZeroDivisionError else Ok (f_quot a b).

(** The builtin [max(a, b)]: the first argument wins unless [b > a]. *)
Definition py_max (a b : F) : F := if (b >? a)%fl then b else a.

(** [x <= y] holds. *)
Definition fle (x y : F) : Prop := (x <=? y)%fl = true.
End Float.

(** Order laws of the arithmetic, as they hold for the real numbers; rounded
    arithmetic keeps them as long as no not-a-number value arises.  Only the
    comparison of American and European prices uses them. *)
Class OrderedFloat (F : Type) `{PyFloat F} : Prop := {
  leb_refl : forall x : F, (x <=? x)%fl = true;
  leb_trans : forall x y z : F,
    (x <=? y)%fl = true -> (y <=? z)%fl = true -> (x <=? z)%fl = true;
  gtb_leb : forall x y : F, (x >? y)%fl = true -> (y <=? x)%fl = true;
  add_mono : forall a a' b b' : F,
    (a <=? a')%fl = true -> (b <=? b')%fl = true ->
    (a + b <=? a' + b')%fl = true;
  mul_mono : forall c a a' : F,
    (f_zero <=? c)%fl = true -> (a <=? a')%fl = true ->
    (c * a <=? c * a')%fl = true;
  complement_nonneg : forall p : F,
    (p <=? f_one)%fl = true -> (f_zero <=? f_one - p)%fl = true;
  exp_nonneg : forall x y : F,
    math_exp x = Ok y -> (f_zero <=? y)%fl = true
}.

(** ** binomial_pricing.py *)

Module Binomial.
Section Binomial.
Context {F : Type} `{PyFloat F}.

Record BinomialParameters : Type := {
  spot : F;
  strike : F;
  maturity : F;
  rate : F;
  volatility : F;
  steps : Z;
  dividend_yield : F;
  option_type : string;
  american : bool
}.

(** The dataclass constructor, with its defaults for the last three fields. *)
Definition BinomialParameters_init (spot strike maturity rate volatility : F)
    (steps : Z) (dividend_yield : option F) (option_type : option string)
    (american : option bool) : BinomialParameters :=
  {| spot := spot; strike := strike; maturity := maturity; rate := rate;
     volatility := volatility; steps := steps;
     dividend_yield := default f_zero dividend_yield;
     option_type := default "call" option_type;
     american := default false american |}.

Definition _validate_parameters (params : BinomialParameters) : result unit :=
  if (spot params <=? f_zero)%fl then
    Raise (InvalidParameterError "Spot price must be positive.")
  else if (strike params <=? f_zero)%fl then
    Raise (InvalidParameterError "Strike price must be positive.")
  else if (maturity params <=? f_zero)%fl then
    Raise (InvalidParameterError "Maturity must be positive.")
  else if (volatility params <=? f_zero)%fl then
    Raise (InvalidParameterError "Volatility must be positive.")
  else if (steps params <=? 0)%Z then
    Raise (InvalidParameterError "Steps must be a positive integer.")
  else if negb (bool_decide (option_type params ∈ ["call"; "put"])) then
    Raise (InvalidParameterError "Option type must be either 'call' or 'put'.")
  else Ok tt.

(** The quantities [price_option] derives before it looks at the tree
    (the assignments to [dt], [up], [down], [discount], [growth] and
    [probability]). *)
Record factors : Type := {
  dt : F;
  up : F;
  down : F;
  discount : F;
  probability : F
}.

Definition derive_factors (params : BinomialParameters) : result factors :=
  n <- float_of_int (steps params) ;;
  dt <- truediv (maturity params) n ;;
  root <- math_sqrt dt ;;
  up <- math_exp (volatility params * root)%fl ;;
  down <- truediv f_one up ;;
  discount <- math_exp (- rate params * dt)%fl ;;
  growth <- math_exp ((rate params - dividend_yield params) * dt)%fl ;;
  probability <- truediv (growth - down)%fl (up - down)%fl ;;
  Ok {| dt := dt; up := up; down := down; discount := discount;
        probability := probability |}.

(** [0 <= probability <= 1] *)
Definition probability_in_range (p : F) : bool :=
  (f_zero <=? p)%fl && (p <=? f_one)%fl.

(** [spot * (up ** i) * (down ** (n - i))] *)
Definition node_price (params : BinomialParameters) (fac : factors)
    (n : Z) (i : nat) : result F :=
  a <- float_pow (up fac) (Z.of_nat i) ;;
  b <- float_pow (down fac) (n - Z.of_nat i) ;;
  Ok (spot params * a * b)%fl.

(** The nested function [payoff] of [price_option]. *)
Definition payoff (params : BinomialParameters) (price : F) : F :=
  if String.eqb (option_type params) "call" then
    py_max (price - strike params)%fl f_zero
  else
    py_max (strike params - price)%fl f_zero.

(** Body of the inner loop: one in-place update of [option_values[i]]. *)
Definition update_node (params : BinomialParameters) (fac : factors)
    (step : nat) (option_values : list F) (i : nat) : result (list F) :=
  v_up <- getitem option_values (i + 1) ;;
  v_down <- getitem option_values i ;;
  let continuation :=
    (discount fac * (probability fac * v_up
                     + (f_one - probability fac) * v_down))%fl in
  if american params then
    underlying_price <- node_price params fac (Z.of_nat step) i ;;
    setitem option_values i
      (py_max continuation (payoff params underlying_price))
  else
    setitem option_values i continuation.

(** Body of the outer loop: [for i in range(step + 1)]. *)
Definition update_level (params : BinomialParameters) (fac : factors)
    (option_values : list F) (step : nat) : result (list F) :=
  foldM (update_node params fac step) option_values
        (range (Z.of_nat step + 1)).

(** Tree construction and backward induction. *)
Definition backward_induction (params : BinomialParameters) (fac : factors)
  : result F :=
  asset_prices <- mapM (node_price params fac (steps params))
                       (range (steps params + 1)) ;;
  let option_values := map (payoff params) asset_prices in
  option_values <- foldM (update_level params fac) option_values
                         (rev (range (steps params))) ;;
  getitem option_values 0.

Definition price_option (params : BinomialParameters) : result F :=
  _validate_parameters params ;;;
  fac <- derive_factors params ;;
  if negb (probability_in_range (probability fac)) then
    Raise (InvalidParameterError
      "Risk-neutral probability is not between 0 and 1. Check inputs for dt or volatility.")
  else backward_induction params fac.

Definition price_option_simplified (spot strike maturity rate volatility : F)
    (steps : Z) (option_type : option string) (american : option bool)
    (dividend_yield : option F) : result F :=
  price_option
    (BinomialParameters_init spot strike maturity rate volatility steps
       (Some (default f_zero dividend_yield))
       (Some (default "call" option_type))
       (Some (default false american))).

(** *** The lattice as the specification words it

    Terminal node [j] carries the payoff of [spot * up^j * down^(steps - j)];
    every earlier level is computed from the previous (later-step) array,
    which is only read. *)

(** The underlying after [i] up-moves out of [n]: [spot * u^i * d^(n - i)]. *)
Definition spec_underlying (params : BinomialParameters) (fac : factors)
    (n : Z) (i : nat) : result F :=
  ups <- float_pow (up fac) (Z.of_nat i) ;;
  downs <- float_pow (down fac) (n - Z.of_nat i) ;;
  Ok (spot params * ups * downs)%fl.

(** The exercise value: [max(price - strike, 0)] for a call and
    [max(strike - price, 0)] for a put. *)
Definition spec_exercise_value (params : BinomialParameters) (price : F) : F :=
  if String.eqb (option_type params) "put" then
    py_max (strike params - price)%fl f_zero
  else
    py_max (price - strike params)%fl f_zero.

Definition spec_terminal_values (params : BinomialParameters) (fac : factors)
  : result (list F) :=
  mapM (fun j => price <- spec_underlying params fac (steps params) j ;;
                 Ok (spec_exercise_value params price))
       (range (steps params + 1)).

Definition spec_node_value (params : BinomialParameters) (fac : factors)
    (step : nat) (previous : list F) (i : nat) : result F :=
  v_up <- getitem previous (i + 1) ;;
  v_down <- getitem previous i ;;
  let continuation :=
    (discount fac * (probability fac * v_up
                     + (f_one - probability fac) * v_down))%fl in
  if american params then
    price <- spec_underlying params fac (Z.of_nat step) i ;;
    Ok (py_max continuation (spec_exercise_value params price))
  else Ok continuation.

Definition spec_level (params : BinomialParameters) (fac : factors)
    (previous : list F) (step : nat) : result (list F) :=
  mapM (spec_node_value params fac step previous) (range (Z.of_nat step + 1)).

Definition spec_lattice_value (params : BinomialParameters) (fac : factors)
  : result F :=
  terminal <- spec_terminal_values params fac ;;
  root <- foldM (spec_level params fac) terminal (rev (range (steps params))) ;;
  getitem root 0.

(** The same parameters with the exercise style replaced. *)
Definition with_american (flag : bool) (params : BinomialParameters)
  : BinomialParameters :=
  {| spot := spot params; strike := strike params;
     maturity := maturity params; rate := rate params;
     volatility := volatility params; steps := steps params;
     dividend_yield := dividend_yield params;
     option_type := option_type params; american := flag |}.

(** The powers [up ** k] and [down ** k] exist for every [k <= n]. *)
Definition powers_defined (fac : factors) (n : nat) : Prop :=
  forall k, k <= n ->
    (exists x, float_pow (up fac) (Z.of_nat k) = Ok x)
    /\ (exists y, float_pow (down fac) (Z.of_nat k) = Ok y).

(** The inputs [price_option] is documented to refuse. *)
Definition rejected_input (params : BinomialParameters) : Prop :=
  (spot params <=? f_zero)%fl = true
  \/ (strike params <=? f_zero)%fl = true
  \/ (maturity params <=? f_zero)%fl = true
  \/ (volatility params <=? f_zero)%fl = true
  \/ (steps params <= 0)%Z
  \/ option_type params ∉ ["call"; "put"]
  \/ (exists fac, derive_factors params = Ok fac
                /\ probability_in_range (probability fac) = false).

End Binomial.

Arguments BinomialParameters : clear implicits.
Arguments factors : clear implicits.

End Binomial.

(** ** monte_carlo_pricing.py: the Monte Carlo engine *)

(** [random.Random]: a generator state, seeding from an integer, and
    [normalvariate], which returns the variate and the advanced state. *)
Class RandomSource (F : Type) : Type := {
  rng : Type;
  seed_rng : Z -> rng;
  normalvariate : rng -> F -> F -> F * rng
}.

Module MonteCarlo.
Section MonteCarlo.
Context {F : Type} `{PyFloat F} `{RandomSource F}.

Record MonteCarloParameters : Type := {
  spot : F;
  maturity : F;
  rate : F;
  volatility : F;
  simulations : Z;
  seed : option Z
}.

Definition _validate_monte_carlo_parameters (params : MonteCarloParameters)
  : result unit :=
  if (spot params <=? f_zero)%fl then
    Raise (InvalidMonteCarloParameterError "Spot price must be positive.")
  else if (maturity params <=? f_zero)%fl then
    Raise (InvalidMonteCarloParameterError "Maturity must be positive.")
  else if (volatility params <=? f_zero)%fl then
    Raise (InvalidMonteCarloParameterError "Volatility must be positive.")
  else if (simulations params <=? 0)%Z then
    Raise (InvalidMonteCarloParameterError "Number of simulations must be positive.")
  else Ok tt.

(** [random.Random(seed)]: with [seed=None] the generator is seeded from
    operating-system entropy, an input of the call made explicit here. *)
Definition Random (seed : option Z) (entropy : Z) : rng :=
  seed_rng (default entropy seed).

(** [drift] and [diffusion], computed once before the loop. *)
Definition coefficients (params : MonteCarloParameters) : result (F * F) :=
  square <- float_pow (volatility params) 2 ;;
  let drift := ((rate params - f_half * square) * maturity params)%fl in
  root <- math_sqrt (maturity params) ;;
  let diffusion := (volatility params * root)%fl in
  Ok (drift, diffusion).

(** [params.spot * math.exp(drift + diffusion * z)] *)
Definition terminal_price (params : MonteCarloParameters)
    (drift diffusion z : F) : result F :=
  growth <- math_exp (drift + diffusion * z)%fl ;;
  Ok (spot params * growth)%fl.

(** Body of the simulation loop; the state is [(payoff_sum, rng)]. *)
Definition simulate_path (params : MonteCarloParameters)
    (payoff : F -> result F) (drift diffusion : F)
    (state : F * rng) (_ : nat) : result (F * rng) :=
  let '(payoff_sum, g) := state in
  let '(z, g') := normalvariate g f_zero f_one in
  price <- terminal_price params drift diffusion z ;;
  value <- payoff price ;;
  Ok ((payoff_sum + value)%fl, g').

(** The loop [for _ in range(params.simulations)], returning the sum and
    the generator as the loop leaves it. *)
Definition simulate (params : MonteCarloParameters)
    (payoff : F -> result F) (drift diffusion : F) (g : rng)
  : result (F * rng) :=
  foldM (simulate_path params payoff drift diffusion) (f_zero, g)
        (range (simulations params)).

Definition price_option_monte_carlo (params : MonteCarloParameters)
    (payoff : F -> result F) (entropy : Z) : result F :=
  _validate_monte_carlo_parameters params ;;;
  let g := Random (seed params) entropy in
  c <- coefficients params ;;
  let '(drift, diffusion) := c in
  out <- simulate params payoff drift diffusion g ;;
  let payoff_sum := fst out in
  n <- float_of_int (simulations params) ;;
  discounted_average <- truediv payoff_sum n ;;
  factor <- math_exp (- rate params * maturity params)%fl ;;
  Ok (factor * discounted_average)%fl.

(** *** The estimate as the specification words it *)

(** The first [n] variates a generator yields, in draw order, and the
    generator after those [n] draws. *)
Fixpoint draws (n : nat) (g : rng) : list F :=
  match n with
  | O => []
  | S n' => let '(z, g') := normalvariate g f_zero f_one in z :: draws n' g'
  end.

Fixpoint after_draws (n : nat) (g : rng) : rng :=
  match n with
  | O => g
  | S n' => after_draws n' (snd (normalvariate g f_zero f_one))
  end.

(** [drift = (rate - 0.5 * volatility^2) * maturity] *)
Definition spec_drift (params : MonteCarloParameters) : result F :=
  square <- float_pow (volatility params) 2 ;;
  Ok ((rate params - f_half * square) * maturity params)%fl.

(** [diffusion = volatility * sqrt(maturity)] *)
Definition spec_diffusion (params : MonteCarloParameters) : result F :=
  root <- math_sqrt (maturity params) ;;
  Ok (volatility params * root)%fl.

(** One trial: the payoff at the terminal price
    [spot * exp(drift + diffusion * z)] of the variate [z]. *)
Definition spec_trial (params : MonteCarloParameters) (payoff : F -> result F)
    (drift diffusion z : F) : result F :=
  growth <- math_exp (drift + diffusion * z)%fl ;;
  payoff (spot params * growth)%fl.

(** [exp(-rate * maturity) * (sum of the payoffs / simulations)] for the
    variates [zs], the payoffs added in draw order starting from [0.0]. *)
Definition spec_estimate (params : MonteCarloParameters)
    (payoff : F -> result F) (zs : list F) : result F :=
  drift <- spec_drift params ;;
  diffusion <- spec_diffusion params ;;
  payoffs <- mapM (spec_trial params payoff drift diffusion) zs ;;
  let total := fold_left f_add payoffs f_zero in
  n <- float_of_int (simulations params) ;;
  average <- truediv total n ;;
  factor <- math_exp (- rate params * maturity params)%fl ;;
  Ok (factor * average)%fl.

End MonteCarlo.

Arguments MonteCarloParameters : clear implicits.

End MonteCarlo.

(** ** monte_carlo_pricing.py: the payoff sandbox *)

Module Sandbox.

(** *** Syntax trees, as [ast.parse(expression, mode="eval")] builds them *)

Inductive expr_context : Type := Load | Store | Del.

Inductive boolop : Type := And | Or.

Inductive operator : Type :=
| Add | Sub | Mult | MatMult | Div | Mod | Pow
| LShift | RShift | BitOr | BitXor | BitAnd | FloorDiv.

Inductive unaryop : Type := Invert | Not | UAdd | USub.

Inductive cmpop : Type :=
| Eq | NotEq | Lt | LtE | Gt | GtE | Is | IsNot | In | NotIn.

(** The value carried by an [ast.Constant]; float and complex literals are
    kept as their source text. *)
Inductive constant : Type :=
| CInt (n : Z)
| CFloat (literal : string)
| CComplex (literal : string)
| CStr (s : string)
| CBytes (s : string)
| CBool (b : bool)
| CNone
| CEllipsis.

(** Node classes the validator has no case for and the allow-list does not
    mention; their fields are kept as a list of child nodes. *)
Inductive other_class : Type :=
| NamedExpr | Lambda | Dict | SetDisplay | ListComp | SetComp | DictComp
| GeneratorExp | Await | Yield | YieldFrom | FormattedValue | JoinedStr
| Subscript | Starred | ListDisplay | TupleDisplay | Slice
| comprehension | arguments | arg | keyword.

#[warnings="-register-all"] Inductive node : Type :=
| BinOp (left : node) (op : operator) (right : node)
| UnaryOp (op : unaryop) (operand : node)
| BoolOp (op : boolop) (values : list node)
| IfExp (test body orelse : node)
| Compare (left : node) (ops : list cmpop) (comparators : list node)
| Call (func : node) (args keywords : list node)
| Constant (value : constant)
| Attribute (value : node) (attr : string) (ctx : expr_context)
| Name (id : string) (ctx : expr_context)
| Other (cls : other_class) (children : list node).

Inductive module_ : Type := Expression (body : node).

(** [node.__class__.__name__] *)
Definition context_name (c : expr_context) : string :=
  match c with Load => "Load" | Store => "Store" | Del => "Del" end.

Definition boolop_name (o : boolop) : string :=
  match o with And => "And" | Or => "Or" end.

Definition operator_name (o : operator) : string :=
  match o with
  | Add => "Add" | Sub => "Sub" | Mult => "Mult" | MatMult => "MatMult"
  | Div => "Div" | Mod => "Mod" | Pow => "Pow" | LShift => "LShift"
  | RShift => "RShift" | BitOr => "BitOr" | BitXor => "BitXor"
  | BitAnd => "BitAnd" | FloorDiv => "FloorDiv"
  end.

Definition unaryop_name (o : unaryop) : string :=
  match o with
  | Invert => "Invert" | Not => "Not" | UAdd => "UAdd" | USub => "USub"
  end.

Definition cmpop_name (o : cmpop) : string :=
  match o with
  | Eq => "Eq" | NotEq => "NotEq" | Lt => "Lt" | LtE => "LtE" | Gt => "Gt"
  | GtE => "GtE" | Is => "Is" | IsNot => "IsNot" | In => "In"
  | NotIn => "NotIn"
  end.

Definition other_name (c : other_class) : string :=
  match c with
  | NamedExpr => "NamedExpr" | Lambda => "Lambda" | Dict => "Dict"
  | SetDisplay => "Set" | ListComp => "ListComp" | SetComp => "SetComp"
  | DictComp => "DictComp" | GeneratorExp => "GeneratorExp"
  | Await => "Await" | Yield => "Yield" | YieldFrom => "YieldFrom"
  | FormattedValue => "FormattedValue" | JoinedStr => "JoinedStr"
  | Subscript => "Subscript" | Starred => "Starred"
  | ListDisplay => "List" | TupleDisplay => "Tuple" | Slice => "Slice"
  | comprehension => "comprehension" | arguments => "arguments"
  | arg => "arg" | keyword => "keyword"
  end.

Definition class_name (n : node) : string :=
  match n with
  | BinOp _ _ _ => "BinOp"
  | UnaryOp _ _ => "UnaryOp"
  | BoolOp _ _ => "BoolOp"
  | IfExp _ _ _ => "IfExp"
  | Compare _ _ _ => "Compare"
  | Call _ _ _ => "Call"
  | Constant _ => "Constant"
  | Attribute _ _ _ => "Attribute"
  | Name _ _ => "Name"
  | Other cls _ => other_name cls
  end.

(** *** The allow-lists *)

Inductive allowed_object : Type :=
| builtin_max | builtin_min | builtin_abs | module_math.

Definition _ALLOWED_NAMES : gmap string allowed_object :=
  <["max" := builtin_max]> (<["min" := builtin_min]>
    (<["abs" := builtin_abs]> (<["math" := module_math]> ∅))).

Definition _ALLOWED_NODES : list string :=
  [ "Expression"; "BinOp"; "UnaryOp"; "Call"; "Name"; "Load"; "Constant";
    "Add"; "Sub"; "Mult"; "Div"; "Pow"; "Mod"; "USub"; "UAdd"; "FloorDiv";
    "LShift"; "RShift"; "BitOr"; "BitAnd"; "BitXor"; "Compare"; "Gt"; "GtE";
    "Lt"; "LtE"; "Eq"; "NotEq"; "IfExp" ].

(** [id in _ALLOWED_NAMES] *)
Definition allowed_name (id : string) : bool :=
  bool_decide (is_Some (_ALLOWED_NAMES !! id)).

(** *** _SafeExpressionValidator *)

Definition unsafe_component (cls : string) : exn :=
  InvalidPayoffError ("Unsafe expression component: " ++ cls ++ ".").

Definition call_message : string :=
  "Only simple function calls like max/min/abs are allowed.".

Definition unknown_identifier (id : string) : exn :=
  InvalidPayoffError ("Unknown identifier '" ++ id ++ "'. Use 'S' for price.").

(** The [isinstance(node, _ALLOWED_NODES)] test that opens [visit]. *)
Definition check_allowed (cls : string) : result unit :=
  if bool_decide (cls ∈ _ALLOWED_NODES) then Ok tt
  else Raise (unsafe_component cls).

(** [isinstance(node.func, ast.Name) and node.func.id in _ALLOWED_NAMES] *)
Definition allowed_callee (func : node) : bool :=
  match func with
  | Name id _ => allowed_name id
  | _ => false
  end.

(** [visit]: the kind test, then the dispatch of [ast.NodeVisitor.visit]
    to [visit_Call], [visit_Name] or [generic_visit].  [generic_visit]
    visits the child nodes in field order; operators and contexts are
    nodes without children, so visiting one is the kind test alone. *)
Fixpoint visit (n : node) : result unit :=
  check_allowed (class_name n) ;;;
  match n with
  | Call func args keywords =>
      if negb (allowed_callee func) then
        Raise (InvalidPayoffError call_message)
      else
        visit func ;;; each visit args ;;; each visit keywords
  | Name id _ =>
      if negb (allowed_name id) && negb (String.eqb id "S") then
        Raise (unknown_identifier id)
      else Ok tt
  | BinOp lhs op rhs =>
      visit lhs ;;; check_allowed (operator_name op) ;;; visit rhs
  | UnaryOp op operand =>
      check_allowed (unaryop_name op) ;;; visit operand
  | BoolOp op values =>
      check_allowed (boolop_name op) ;;; each visit values
  | IfExp test body orelse =>
      visit test ;;; visit body ;;; visit orelse
  | Compare lhs ops comparators =>
      visit lhs ;;; each check_allowed (map cmpop_name ops) ;;;
      each visit comparators
  | Constant _ => Ok tt
  | Attribute value _ ctx =>
      visit value ;;; check_allowed (context_name ctx)
  | Other _ children => each visit children
  end.

(** [visit] applied to the root [ast.Expression]. *)
Definition visit_module (m : module_) : result unit :=
  match m with
  | Expression body => check_allowed "Expression" ;;; visit body
  end.

(** *** Vocabulary for statements about syntax trees *)

(** Every node of the tree rooted at [n], the root first. *)
Fixpoint subnodes (n : node) : list node :=
  n :: match n with
       | BinOp lhs _ rhs => subnodes lhs ++ subnodes rhs
       | UnaryOp _ operand => subnodes operand
       | BoolOp _ values => concat (map subnodes values)
       | IfExp test body orelse =>
           subnodes test ++ subnodes body ++ subnodes orelse
       | Compare lhs _ comparators =>
           subnodes lhs ++ concat (map subnodes comparators)
       | Call func args keywords =>
           subnodes func ++ concat (map subnodes args)
           ++ concat (map subnodes keywords)
       | Constant _ => []
       | Attribute value _ _ => subnodes value
       | Name _ _ => []
       | Other _ children => concat (map subnodes children)
       end.

(** The class of a node and of the operator and context nodes it holds. *)
Definition own_kinds (n : node) : list string :=
  class_name n :: match n with
                  | BinOp _ op _ => [operator_name op]
                  | UnaryOp op _ => [unaryop_name op]
                  | BoolOp op _ => [boolop_name op]
                  | Compare _ ops _ => map cmpop_name ops
                  | Attribute _ _ ctx => [context_name ctx]
                  | Name _ ctx => [context_name ctx]
                  | _ => []
                  end.

(** The node kinds that occur in a tree. *)
Definition kinds (n : node) : list string :=
  concat (map own_kinds (subnodes n)).

Definition is_load (ctx : expr_context) : bool :=
  match ctx with
  | Load => true
  | _ => false
  end.

(** What the parser guarantees about contexts: an identifier or attribute
    is in [Store] or [Del] context only where it is bound, directly under a
    walrus, a comprehension or another of the [Other] constructs; everywhere
    else the context is [Load]. *)
Fixpoint loads_outside_binders (n : node) : bool :=
  match n with
  | BinOp lhs _ rhs => loads_outside_binders lhs && loads_outside_binders rhs
  | UnaryOp _ operand => loads_outside_binders operand
  | BoolOp _ values => forallb loads_outside_binders values
  | IfExp test body orelse =>
      loads_outside_binders test && loads_outside_binders body
      && loads_outside_binders orelse
  | Compare lhs _ comparators =>
      loads_outside_binders lhs && forallb loads_outside_binders comparators
  | Call func args keywords =>
      loads_outside_binders func && forallb loads_outside_binders args
      && forallb loads_outside_binders keywords
  | Constant _ => true
  | Attribute value _ ctx =>
      loads_outside_binders value && is_load ctx
  | Name _ ctx => is_load ctx
  | Other _ _ => true
  end.

(** A call whose callee is not an allow-listed name. *)
Definition bad_call (n : node) : Prop :=
  exists func args keywords,
    n = Call func args keywords /\ allowed_callee func = false.

(** A bare identifier that is neither [S] nor an allow-listed name. *)
Definition bad_identifier (n : node) (id : string) : Prop :=
  (exists ctx, n = Name id ctx) /\ allowed_name id = false /\ id <> "S".

(** [cls] is on the allow-list of node kinds. *)
Definition allowed_kind (cls : string) : Prop := cls ∈ _ALLOWED_NODES.

(** A node inside the grammar, and the complaint about one outside it. *)
Definition good (m : node) : Prop :=
  Forall allowed_kind (own_kinds m)
  /\ ~ bad_call m
  /\ forall id, ~ bad_identifier m id.

Definition offence (e : exn) (m : node) : Prop :=
  (exists cls, cls ∈ own_kinds m /\ ~ allowed_kind cls
               /\ e = unsafe_component cls)
  \/ (bad_call m /\ e = InvalidPayoffError call_message)
  \/ (exists id, bad_identifier m id /\ e = unknown_identifier id).

(** The three ways a tree can leave the grammar. *)
Definition outside_grammar (body : node) : Prop :=
  (exists cls, cls ∈ ("Expression" :: kinds body) /\ cls ∉ _ALLOWED_NODES)
  \/ (exists n, n ∈ subnodes body /\ bad_call n)
  \/ (exists n id, n ∈ subnodes body /\ bad_identifier n id).

(** The error names a construct or an identifier of the tree that is
    outside the grammar. *)
Definition names_offender (body : node) (e : exn) : Prop :=
  (exists cls, cls ∈ ("Expression" :: kinds body)
               /\ (cls ∉ _ALLOWED_NODES) /\ e = unsafe_component cls)
  \/ ((exists n, n ∈ subnodes body /\ bad_call n)
      /\ e = InvalidPayoffError call_message)
  \/ (exists n id, n ∈ subnodes body /\ bad_identifier n id
                  /\ e = unknown_identifier id).

(** Literals that are numbers. *)
Definition is_number (c : constant) : bool :=
  match c with
  | CInt _ | CFloat _ | CComplex _ => true
  | _ => false
  end.

Definition has_non_numeric_literal (body : node) : Prop :=
  exists c, Constant c ∈ subnodes body /\ is_number c = false.

(** The same tree with every literal [c] replaced by [f c]. *)
Fixpoint replace_constants (f : constant -> constant) (n : node) : node :=
  match n with
  | BinOp lhs op rhs =>
      BinOp (replace_constants f lhs) op (replace_constants f rhs)
  | UnaryOp op operand => UnaryOp op (replace_constants f operand)
  | BoolOp op values => BoolOp op (map (replace_constants f) values)
  | IfExp test body orelse =>
      IfExp (replace_constants f test) (replace_constants f body)
            (replace_constants f orelse)
  | Compare lhs ops comparators =>
      Compare (replace_constants f lhs) ops
              (map (replace_constants f) comparators)
  | Call func args keywords =>
      Call (replace_constants f func) (map (replace_constants f) args)
           (map (replace_constants f) keywords)
  | Constant c => Constant (f c)
  | Attribute value attr ctx => Attribute (replace_constants f value) attr ctx
  | Name id ctx => Name id ctx
  | Other cls children => Other cls (map (replace_constants f) children)
  end.

(** *** build_payoff_function *)

(** What an expression can see when it is evaluated: the allow-listed
    objects and the price bound to [S]. *)
Inductive scope_value (F : Type) : Type :=
| Allowed (o : allowed_object)
| Price (price : F).

Arguments Allowed {F} o.
Arguments Price {F} price.

(** The interpreter services the function calls: [ast.parse] and
    [float(eval(compiled, {"__builtins__": {}}, scope))]. *)
Class Interpreter (F : Type) : Type := {
  ast_parse : string -> result module_;
  eval_float : module_ -> gmap string (scope_value F) -> result F
}.

Section Build.
Context {F : Type} `{Interpreter F}.

(** [{**_ALLOWED_NAMES, **local_scope}]: later entries win. *)
Definition payoff_scope (price : F) : gmap string (scope_value F) :=
  (<["S" := Price price]> ∅) ∪ (Allowed <$> _ALLOWED_NAMES).

Definition build_payoff_function (expression : string)
  : result (F -> result F) :=
  match ast_parse expression with
  | Raise SyntaxError =>
      Raise (InvalidPayoffError "Payoff expression could not be parsed.")
  | Raise e => Raise e
  | Ok parsed =>
      visit_module parsed ;;;
      let compiled := parsed in
      Ok (fun price => eval_float compiled (payoff_scope price))
  end.
End Build.

(** The third grammar claim as the specification states it: an expression
    with a literal that is not a number does not compile. *)
Definition non_numeric_literals_rejected : Prop :=
  forall (F : Type) (I : Interpreter F) (expression : string) (body : node),
    ast_parse expression = Ok (Expression body) ->
    has_non_numeric_literal body ->
    exists msg,
      build_payoff_function expression = Raise (InvalidPayoffError msg).

End Sandbox.


(** ** An interpreter for the examples

    A parser that knows the expressions used as examples, and an evaluator
    for the arithmetic core of the grammar, over any float arithmetic. *)

Module TableInterpreter.
Import Sandbox.

(** The trees [ast.parse] builds for the expressions used as examples; this
    parser knows no other source text. *)
Definition parse_table : list (string * module_) :=
  [ ("max(S - 100, 0)",
     Expression (Call (Name "max" Load)
                      [BinOp (Name "S" Load) Sub (Constant (CInt 100));
                       Constant (CInt 0)] []));
    ("math.exp(S)",
     Expression (Call (Attribute (Name "math" Load) "exp" Load)
                      [Name "S" Load] []));
    ("'abc'", Expression (Constant (CStr "abc")));
    ("S @ 2", Expression (BinOp (Name "S" Load) MatMult (Constant (CInt 2))));
    ("price - 100",
     Expression (BinOp (Name "price" Load) Sub (Constant (CInt 100))));
    ("1 / (S - S)",
     Expression (BinOp (Constant (CInt 1)) Div
                       (BinOp (Name "S" Load) Sub (Name "S" Load)))) ].

Definition table_parse (source : string) : result module_ :=
  match list_find (fun entry => String.eqb (fst entry) source) parse_table with
  | Some (_, (_, tree)) => Ok tree
  | None => Raise SyntaxError
  end.

Section Evaluator.
Context {F : Type} `{PyFloat F}.

(** An evaluator for integer literals, names looked up in the scope,
    [+ - * /], the unary signs and the three allow-listed builtins, with
    every number a float.  Other constructs are outside what it
    interprets. *)
Fixpoint eval_arithmetic (scope : gmap string (scope_value F)) (n : node)
  : result F :=
  match n with
  | Constant (CInt z) => float_of_int z
  | Name id _ =>
      match scope !! id with
      | Some (Price price) => Ok price
      | Some (Allowed _) => Raise TypeError
      | None => Raise NameError
      end
  | UnaryOp UAdd operand => eval_arithmetic scope operand
  | UnaryOp USub operand => v <- eval_arithmetic scope operand ;; Ok (- v)%fl
  | BinOp lhs op rhs =>
      a <- eval_arithmetic scope lhs ;;
      b <- eval_arithmetic scope rhs ;;
      match op with
      | Add => Ok (a + b)%fl
      | Sub => Ok (a - b)%fl
      | Mult => Ok (a * b)%fl
      | Div => truediv a b
      | _ => Raise TypeError
      end
  | Call (Name id _) [x] [] =>
      match scope !! id with
      | Some (Allowed builtin_abs) =>
          v <- eval_arithmetic scope x ;;
          Ok (if (f_zero >? v)%fl then (- v)%fl else v)
      | _ => Raise TypeError
      end
  | Call (Name id _) [x; y] [] =>
      match scope !! id with
      | Some (Allowed builtin_max) =>
          a <- eval_arithmetic scope x ;;
          b <- eval_arithmetic scope y ;;
          Ok (py_max a b)
      | Some (Allowed builtin_min) =>
          a <- eval_arithmetic scope x ;;
          b <- eval_arithmetic scope y ;;
          Ok (if (a >? b)%fl then b else a)
      | _ => Raise TypeError
      end
  | _ => Raise TypeError
  end.

#[export] Instance table_interpreter : Interpreter F := {|
  ast_parse := table_parse;
  eval_float := fun m scope =>
    match m with Expression body => eval_arithmetic scope body end
|}.

(** The compiled form of [1 / (S - S)]. *)
Definition zero_division_payoff (price : F) : result F :=
  eval_float
    (Expression (BinOp (Constant (CInt 1)) Div
                       (BinOp (Name "S" Load) Sub (Name "S" Load))))
    (payoff_scope price).

End Evaluator.
End TableInterpreter.

(** ** A model in the rationals that runs

    Exact rational arithmetic, with [math.exp] a truncated power series and
    [math.sqrt] a few Newton steps, both rounded to eighteen decimals.  It
    approximates the float arithmetic well enough to run the definitions on
    examples. *)

Module RationalModel.

Local Open Scope Q_scope.

Definition precision : positive := (10 ^ 18)%positive.

Definition rounded (q : Q) : Q :=
  Qred (Qfloor (q * inject_Z (Zpos precision)) # precision).

Fixpoint exp_series (terms k : nat) (x : Q) : Q :=
  match terms with
  | O => 1
  | S terms' => 1 + x * exp_series terms' (S k) x / inject_Z (Z.of_nat k)
  end.

Definition rational_exp (x : Q) : Q := rounded (exp_series 16 1 (Qred x)).

Fixpoint newton_sqrt (rounds : nat) (x y : Q) : Q :=
  match rounds with
  | O => y
  | S rounds' => newton_sqrt rounds' x (rounded ((y + x / y) / 2))
  end.

Definition rational_sqrt (x : Q) : result Q :=
  if negb (Qle_bool 0 x) then Raise ValueError
  else if Qeq_bool x 0 then Ok 0
  else Ok (newton_sqrt 8 x 1).

Definition rational_pow (x : Q) (n : Z) : result Q :=
  if (n <? 0)%Z && Qeq_bool x 0 then Raise ZeroDivisionError
  else Ok (Qred (Qpower x n)).

#[export] Instance rational_float : PyFloat Q := {|
  f_zero := 0;
  f_one := 1;
  f_half := 1 # 2;
  f_add := fun a b => Qred (a + b);
  f_sub := fun a b => Qred (a - b);
  f_mul := fun a b => Qred (a * b);
  f_neg := Qopp;
  f_quot := fun a b => Qred (a / b);
  f_eqb := Qeq_bool;
  f_leb := Qle_bool;
  f_gtb := fun a b => negb (Qle_bool a b);
  float_of_int := fun z => Ok (inject_Z z);
  float_pow := rational_pow;
  math_exp := fun x => Ok (rational_exp x);
  math_sqrt := rational_sqrt
|}.

(** A stand-in generator: the state counts the draws and the variates
    alternate one standard deviation above and below the mean. *)
#[export] Instance rational_source : RandomSource Q := {|
  rng := nat;
  seed_rng := Z.to_nat;
  normalvariate := fun g mu sigma =>
    ((if Nat.even g then Qred (mu + sigma) else Qred (mu - sigma)), S g)
|}.

(** A result in units of one ten-thousandth, rounded down. *)
Definition basis_points (r : result Q) : result Z :=
  match r with
  | Ok v => Ok (Qfloor (v * 10000))
  | Raise e => Raise e
  end.

(** The textbook example: at the money, one year, 5% rate, 20% volatility,
    on a three-step tree. *)
Definition textbook (kind : string) (early : bool)
  : Binomial.BinomialParameters Q :=
  {| Binomial.spot := 100; Binomial.strike := 100; Binomial.maturity := 1;
     Binomial.rate := 5 # 100; Binomial.volatility := 2 # 10;
     Binomial.steps := 3; Binomial.dividend_yield := 0;
     Binomial.option_type := kind; Binomial.american := early |}.

(** Four seeded paths of the same underlying. *)
Definition four_paths : MonteCarlo.MonteCarloParameters Q :=
  {| MonteCarlo.spot := 100; MonteCarlo.maturity := 1;
     MonteCarlo.rate := 5 # 100; MonteCarlo.volatility := 2 # 10;
     MonteCarlo.simulations := 4; MonteCarlo.seed := Some 0%Z |}.

(** Compile an expression and evaluate it at a price. *)
Definition run (expression : string) (price : Q) : result Q :=
  payoff <- Sandbox.build_payoff_function
              (H := TableInterpreter.table_interpreter) expression ;;
  payoff price.

Definition vanilla_call (price : Q) : result Q := run "max(S - 100, 0)" price.

End RationalModel.

(** ** A model in the real numbers

    The arithmetic read over [R], where [math.exp] and [math.sqrt] are the
    real functions and nothing overflows.  It is the model in which the
    theorems below are instantiated on concrete inputs. *)

Module RealModel.

Local Open Scope R_scope.

Definition Rleb (a b : R) : bool := if Rle_dec a b then true else false.
Definition Rgtb (a b : R) : bool := if Rgt_dec a b then true else false.
Definition Reqb (a b : R) : bool := if Req_dec_T a b then true else false.

Definition real_sqrt (x : R) : result R :=
  if Rlt_dec x 0 then Raise ValueError else Ok (sqrt x).

(** [0.0 ** n] raises for a negative exponent. *)
Definition real_pow (x : R) (n : Z) : result R :=
  if (n <? 0)%Z && Reqb x 0 then Raise ZeroDivisionError
  else Ok (powerRZ x n).

#[export] Instance real_float : PyFloat R := {|
  f_zero := 0;
  f_one := 1;
  f_half := / 2;
  f_add := Rplus;
  f_sub := Rminus;
  f_mul := Rmult;
  f_neg := Ropp;
  f_quot := Rdiv;
  f_eqb := Reqb;
  f_leb := Rleb;
  f_gtb := Rgtb;
  float_of_int := fun z => Ok (IZR z);
  float_pow := real_pow;
  math_exp := fun x => Ok (exp x);
  math_sqrt := real_sqrt
|}.

(** A stand-in generator: the state counts the draws and the variates
    alternate one standard deviation above and below the mean. *)
#[export] Instance counter_source : RandomSource R := {|
  rng := nat;
  seed_rng := Z.to_nat;
  normalvariate := fun g mu sigma =>
    ((if Nat.even g then mu + sigma else mu - sigma), S g)
|}.

Section Samples.
Import Binomial.

(** The derived quantities of the lattice, computed in the reals. *)
Definition real_factors (params : BinomialParameters R) : factors R :=
  let dt := maturity params / IZR (steps params) in
  let up := exp (volatility params * sqrt dt) in
  let down := 1 / up in
  {| dt := dt; up := up; down := down;
     discount := exp (- rate params * dt);
     probability :=
       (exp ((rate params - dividend_yield params) * dt) - down)
       / (up - down) |}.

(** An at-the-money put on a two-step tree. *)
Definition sample : BinomialParameters R :=
  {| spot := 100; strike := 100; maturity := 1; rate := 0; volatility := 1;
     steps := 2; dividend_yield := 0; option_type := "put";
     american := false |}.

(** A rate so high that the growth factor exceeds the up factor: the
    derived probability is above one. *)
Definition steep : BinomialParameters R :=
  {| spot := 100; strike := 100; maturity := 1; rate := 1; volatility := / 2;
     steps := 1; dividend_yield := 0; option_type := "call";
     american := false |}.

End Samples.

(** Three seeded paths. *)
Definition mc_sample : MonteCarlo.MonteCarloParameters R :=
  {| MonteCarlo.spot := 100; MonteCarlo.maturity := 1; MonteCarlo.rate := 0;
     MonteCarlo.volatility := 1; MonteCarlo.simulations := 3; MonteCarlo.seed := Some 7%Z |}.

(** The payoff of a vanilla call struck at 100. *)
Definition call_payoff (price : R) : result R := Ok (py_max (price - 100) 0).

End RealModel.

(** ** The grammar the validator accepts, written out *)

Module Grammar.
Import Sandbox.

(** The binary operators of the allow-list: all of Python's except [@]. *)
Definition allowed_operator (op : operator) : bool :=
  match op with
  | MatMult => false
  | _ => true
  end.

(** The unary operators of the allow-list: the two signs. *)
Definition allowed_unaryop (op : unaryop) : bool :=
  match op with
  | UAdd | USub => true
  | Invert | Not => false
  end.

(** The comparisons of the allow-list: the six orderings and equalities. *)
Definition allowed_cmpop (op : cmpop) : bool :=
  match op with
  | Eq | NotEq | Lt | LtE | Gt | GtE => true
  | Is | IsNot | In | NotIn => false
  end.

(** The expressions of the payoff grammar: literals, [S] and the
    allow-listed names, signed and binary arithmetic, comparisons,
    conditional expressions, and calls of an allow-listed name whose
    arguments are again in the grammar. *)
Fixpoint in_grammar (n : node) : bool :=
  match n with
  | Constant _ => true
  | Name id _ => allowed_name id || String.eqb id "S"
  | UnaryOp op operand => allowed_unaryop op && in_grammar operand
  | BinOp lhs op rhs =>
      in_grammar lhs && allowed_operator op && in_grammar rhs
  | Compare lhs ops comparators =>
      in_grammar lhs && forallb allowed_cmpop ops
      && forallb in_grammar comparators
  | IfExp test body orelse =>
      in_grammar test && in_grammar body && in_grammar orelse
  | Call (Name id _) args keywords =>
      allowed_name id && forallb in_grammar args
      && forallb in_grammar keywords
  | Call _ _ _ => false
  | BoolOp _ _ => false
  | Attribute _ _ _ => false
  | Other _ _ => false
  end.

(** Whether a computation returned. *)
Definition is_ok {A : Type} (r : result A) : bool :=
  match r with
  | Ok _ => true
  | Raise _ => false
  end.

(** The validator's verdict as a boolean. *)
Definition accepts (n : node) : bool := is_ok (visit n).

End Grammar.

(** ** Inputs the Monte Carlo engine refuses *)

Module EngineInputs.
Import MonteCarlo.

Section Inputs.
Context {F : Type} `{PyFloat F}.

Definition rejected_input (params : MonteCarloParameters F) : Prop :=
  (spot params <=? f_zero)%fl = true
  \/ (maturity params <=? f_zero)%fl = true
  \/ (volatility params <=? f_zero)%fl = true
  \/ (simulations params <= 0)%Z.

End Inputs.
End EngineInputs.

(** ** Further vocabulary for the lattice *)

(** Sign laws of the arithmetic: the order is total and sums and products
    of non-negative numbers are non-negative.  They hold for the real
    numbers; rounded arithmetic keeps them as long as no not-a-number value
    arises. *)
Class SignedFloat (F : Type) `{OrderedFloat F} : Prop := {
  gtb_total : forall x y : F, (x >? y)%fl = false -> (x <=? y)%fl = true;
  add_nonneg : forall a b : F,
    (f_zero <=? a)%fl = true -> (f_zero <=? b)%fl = true ->
    (f_zero <=? a + b)%fl = true;
  mul_nonneg : forall a b : F,
    (f_zero <=? a)%fl = true -> (f_zero <=? b)%fl = true ->
    (f_zero <=? a * b)%fl = true
}.

Module LatticeInputs.
Import Binomial.

Section Inputs.
Context {F : Type} `{PyFloat F}.

(** The message of the probability check. *)
Definition probability_message : string :=
  "Risk-neutral probability is not between 0 and 1. Check inputs for dt or volatility.".

(** The European option of the given kind on the same underlying. *)
Definition european (kind : string) (params : BinomialParameters F)
  : BinomialParameters F :=
  {| spot := spot params; strike := strike params;
     maturity := maturity params; rate := rate params;
     volatility := volatility params; steps := steps params;
     dividend_yield := dividend_yield params;
     option_type := kind; american := false |}.

End Inputs.
End LatticeInputs.

(** ** web_app.py

    The two request handlers and the extraction of parameters from a
    request.  A request carries its method, its form fields and, when it is
    JSON, the object its body parses to; the model covers bodies that are
    JSON objects, the type [_extract_parameters] declares for its argument.
    A handler returns its response, or raises when an exception escapes it.
    The log line of [index] is not modelled. *)

Module Web.
Import MonteCarlo Sandbox.

(** What a JSON object or a form holds. *)
#[warnings="-register-all"] Inductive value (F : Type) : Type :=
| VNone
| VBool (b : bool)
| VInt (n : Z)
| VFloat (x : F)
| VStr (s : string)
| VList (items : list (value F))
| VDict (entries : list (string * value F)).

Arguments VNone {F}.
Arguments VBool {F} b.
Arguments VInt {F} n.
Arguments VFloat {F} x.
Arguments VStr {F} s.
Arguments VList {F} items.
Arguments VDict {F} entries.

(** The conversions the interpreter supplies: parsing a string as a float
    or an integer ([None] stands for [ValueError]), truncating a float to
    an integer, the float a literal of the source denotes, [str] of a value
    that is not a string, and the format [.4f]. *)
Class Conversions (F : Type) : Type := {
  float_of_str : string -> option F;
  int_of_str : string -> option Z;
  int_of_float : F -> result Z;
  float_literal : string -> F;
  str_of_value : value F -> string;
  format_4f : F -> string
}.

(** [jsonify({"error": message})] and [jsonify({"price": price})] *)
Inductive json_body (F : Type) : Type :=
| ErrorBody (message : string)
| PriceBody (price : F).

Arguments ErrorBody {F} message.
Arguments PriceBody {F} price.

Record response (F : Type) : Type := {
  body : json_body F;
  status : Z
}.

Arguments body {F} r.
Arguments status {F} r.

Record request (F : Type) : Type := {
  method : string;
  is_json : bool;
  form : gmap string string;
  json : gmap string (value F)
}.

Arguments method {F} r.
Arguments is_json {F} r.
Arguments form {F} r.
Arguments json {F} r.

(** The context [index] renders its template with. *)
Record page (F : Type) : Type := {
  page_price : option string;
  page_error : option string;
  page_form : gmap string (value F)
}.

Arguments page_price {F} p.
Arguments page_error {F} p.
Arguments page_form {F} p.

Section Handlers.
Context {F : Type} `{PyFloat F} `{RandomSource F} `{Interpreter F}
        `{Conversions F}.

(** Truth value of an object, as [or] tests it. *)
Definition truthy (v : value F) : bool :=
  match v with
  | VNone => false
  | VBool b => b
  | VInt n => negb (n =? 0)%Z
  | VFloat x => negb (f_eqb x f_zero)
  | VStr s => negb (String.eqb s "")
  | VList items => negb (bool_decide (length items = 0%nat))
  | VDict entries => negb (bool_decide (length entries = 0%nat))
  end.

(** [str(v)] *)
Definition py_str (v : value F) : string :=
  match v with
  | VStr s => s
  | _ => str_of_value v
  end.

(** [float(v)] *)
Definition py_float (v : value F) : result F :=
  match v with
  | VFloat x => Ok x
  | VInt n => float_of_int n
  | VBool b => Ok (if b then f_one else f_zero)
  | VStr s =>
      match float_of_str s with
      | Some x => Ok x
      | None => Raise ValueError
      end
  | VNone | VList _ | VDict _ => Raise TypeError
  end.

(** [int(v)] *)
Definition py_int (v : value F) : result Z :=
  match v with
  | VInt n => Ok n
  | VBool b => Ok (if b then 1 else 0)%Z
  | VFloat x => int_of_float x
  | VStr s =>
      match int_of_str s with
      | Some n => Ok n
      | None => Raise ValueError
      end
  | VNone | VList _ | VDict _ => Raise TypeError
  end.

(** [source.get(key, fallback)] *)
Definition get (source : gmap string (value F)) (key : string)
    (fallback : value F) : value F :=
  default fallback (source !! key).

(** [v in (None, "")] for the result [v] of [source.get("seed")] *)
Definition blank (v : option (value F)) : bool :=
  match v with
  | None => true
  | Some VNone => true
  | Some (VStr s) => String.eqb s ""
  | Some _ => false
  end.

(** [isinstance(e, (TypeError, ValueError))]; the three errors of the
    pricing modules derive from [ValueError]. *)
Definition numeric_failure (e : exn) : bool :=
  match e with
  | TypeError | ValueError => true
  | InvalidParameterError _ | InvalidMonteCarloParameterError _
  | InvalidPayoffError _ => true
  | _ => false
  end.

Definition default_payoff : string := "max(S - 100, 0)".

(** The values used for absent fields. *)
Definition default_spot : value F := VFloat (float_literal "100.0").
Definition default_maturity : value F := VFloat (float_literal "1.0").
Definition default_rate : value F := VFloat (float_literal "0.05").
Definition default_volatility : value F := VFloat (float_literal "0.2").
Definition default_simulations : value F := VInt 100000.

(** The fields that have a fallback, with the fallback. *)
Definition field_defaults : list (string * value F) :=
  [ ("payoff", VStr default_payoff); ("spot", default_spot);
    ("maturity", default_maturity); ("rate", default_rate);
    ("volatility", default_volatility);
    ("simulations", default_simulations) ].

(** The construction of [MonteCarloParameters] inside the second [try]:
    the conversions run in the order of the keyword arguments. *)
Definition convert_parameters (source : gmap string (value F))
  : result (MonteCarloParameters F) :=
  spot <- py_float (get source "spot" default_spot) ;;
  maturity <- py_float (get source "maturity" default_maturity) ;;
  rate <- py_float (get source "rate" default_rate) ;;
  volatility <- py_float (get source "volatility" default_volatility) ;;
  simulations <- py_int (get source "simulations" default_simulations) ;;
  seed <- match source !! "seed" with
          | Some v =>
              if blank (Some v) then Ok None
              else (n <- py_int v ;; Ok (Some n))
          | None => Ok None
          end ;;
  Ok {| spot := spot; maturity := maturity; rate := rate;
        volatility := volatility; simulations := simulations;
        seed := seed |}.

Definition _extract_parameters (source : gmap string (value F))
  : result (MonteCarloParameters F * string * (F -> result F)) :=
  let given := get source "payoff" (VStr default_payoff) in
  let payoff_expr :=
    py_str (if truthy given then given else VStr default_payoff) in
  payoff_fn <- match build_payoff_function payoff_expr with
               | Raise (InvalidPayoffError msg) =>
                   Raise (InvalidPayoffError msg)
               | outcome => outcome
               end ;;
  params <- match convert_parameters source with
            | Raise e =>
                if numeric_failure e then
                  Raise (InvalidMonteCarloParameterError
                           "Inputs must be numeric.")
                else Raise e
            | Ok params => Ok params
            end ;;
  Ok (params, payoff_expr, payoff_fn).

(** The body of the [try] of both handlers: extract, then price. *)
Definition extract_and_price (source : gmap string (value F)) (entropy : Z)
  : result F :=
  extracted <- _extract_parameters source ;;
  let '(params, _, payoff_fn) := extracted in
  price_option_monte_carlo params payoff_fn entropy.

Definition price_api (req : request F) (entropy : Z) : result (response F) :=
  if negb (is_json req) then
    Ok {| body := ErrorBody "Send JSON payload."; status := 400 |}
  else
    match extract_and_price (json req) entropy with
    | Raise (InvalidPayoffError msg) =>
        Ok {| body := ErrorBody msg; status := 400 |}
    | Raise (InvalidMonteCarloParameterError msg) =>
        Ok {| body := ErrorBody msg; status := 400 |}
    | Raise e => Raise e
    | Ok price => Ok {| body := PriceBody price; status := 200 |}
    end.

(** [request.form.get(key, fallback)] for each field of the form. *)
Definition form_data (req : request F) : gmap string (value F) :=
  let field key fallback := default fallback (VStr <$> form req !! key) in
  <["spot" := field "spot" default_spot]>
  (<["maturity" := field "maturity" default_maturity]>
  (<["rate" := field "rate" default_rate]>
  (<["volatility" := field "volatility" default_volatility]>
  (<["simulations" := field "simulations" default_simulations]>
  (<["seed" := field "seed" (VStr "")]>
  (<["payoff" := field "payoff" (VStr default_payoff)]> ∅)))))).

Definition index (req : request F) (entropy : Z) : result (page F) :=
  if String.eqb (method req) "POST" then
    match extract_and_price (VStr <$> form req) entropy with
    | Ok result =>
        Ok {| page_price := Some (format_4f result); page_error := None;
              page_form := form_data req |}
    | Raise (InvalidPayoffError msg) =>
        Ok {| page_price := None; page_error := Some msg;
              page_form := form_data req |}
    | Raise (InvalidMonteCarloParameterError msg) =>
        Ok {| page_price := None; page_error := Some msg;
              page_form := form_data req |}
    | Raise e => Raise e
    end
  else
    Ok {| page_price := None; page_error := None;
          page_form := form_data req |}.

End Handlers.
End Web.

(** ** Conversions and requests for the examples

    The conversions over the rational model.  Strings are read in plain
    decimal notation, an optional sign, digits and an optional fraction;
    the other spellings Python reads (surrounding blanks, exponents,
    underscores, [inf], [nan]) are not read here.  Of the values that are
    not strings, [None], booleans and integers are rendered as Python
    renders them; floats and containers are not rendered. *)

Module RationalWeb.
Import Web RationalModel.

Definition digit (c : ascii) : option Z :=
  let code := Z.of_N (N_of_ascii c) in
  if (48 <=? code)%Z && (code <=? 57)%Z then Some (code - 48)%Z else None.

Fixpoint digits (acc : Z) (s : string) : option Z :=
  match s with
  | EmptyString => Some acc
  | String c rest =>
      match digit c with
      | Some d => digits (10 * acc + d) rest
      | None => None
      end
  end.

Definition unsigned_integer (s : string) : option Z :=
  if String.eqb s "" then None else digits 0 s.

(** The text before the first point, and the text after it if there is
    one. *)
Fixpoint split_point (s : string) : string * option string :=
  match s with
  | EmptyString => (EmptyString, None)
  | String c rest =>
      if Ascii.eqb c "."%char then (EmptyString, Some rest)
      else let '(whole, fraction) := split_point rest in
           (String c whole, fraction)
  end.

Definition unsigned_decimal (s : string) : option Q :=
  match split_point s with
  | (whole, None) => inject_Z <$> unsigned_integer whole
  | (whole, Some fraction) =>
      if String.eqb whole "" && String.eqb fraction "" then None
      else
        match digits 0 whole, digits 0 fraction with
        | Some w, Some f =>
            Some (Qred (inject_Z w
                        + (f # Pos.pow 10 (Pos.of_nat (String.length fraction))))%Q)
        | _, _ => None
        end
  end.

Definition signed {A : Type} (read : string -> option A) (negate : A -> A)
    (s : string) : option A :=
  match s with
  | String c rest =>
      if Ascii.eqb c "-"%char then negate <$> read rest
      else if Ascii.eqb c "+"%char then read rest
      else read s
  | EmptyString => None
  end.

(** Round to the nearest integer, ties to the even one. *)
Definition round_half_even (q : Q) : Z :=
  let low := Qfloor q in
  match ((q - inject_Z low) ?= (1 # 2))%Q with
  | Lt => low
  | Gt => (low + 1)%Z
  | Eq => if Z.even low then low else (low + 1)%Z
  end.

(** [n] in decimal, padded with zeros on the left to four digits. *)
Definition four_digits (n : Z) : string :=
  let text := pretty n in
  String.concat "" (replicate (4 - String.length text) "0") +:+ text.

(** [f"{q:.4f}"] *)
Definition rational_format_4f (q : Q) : string :=
  let scaled := round_half_even (Qabs q * 10000)%Q in
  (if Qle_bool 0 q then "" else "-")
  +:+ pretty (scaled / 10000)%Z +:+ "." +:+ four_digits (scaled mod 10000)%Z.

#[export] Instance rational_conversions : Conversions Q := {|
  float_of_str := signed unsigned_decimal Qopp;
  int_of_str := signed unsigned_integer Z.opp;
  int_of_float := fun q => Ok (Z.quot (Qnum q) (Zpos (Qden q)));
  float_literal := fun s => default 0%Q (signed unsigned_decimal Qopp s);
  str_of_value := fun v =>
    match v with
    | VNone => "None"
    | VBool b => if b then "True" else "False"
    | VInt n => pretty n
    | _ => ""
    end;
  format_4f := rational_format_4f
|}.

(** A form posted with four seeded paths of a vanilla call. *)
Definition posted : request Q :=
  {| method := "POST"; is_json := false;
     form := list_to_map [ ("payoff", "max(S - 100, 0)"); ("spot", "100");
                           ("simulations", "4"); ("seed", "0") ];
     json := ∅ |}.

(** The same fields sent as a JSON object of strings. *)
Definition mirrored : request Q :=
  {| method := "POST"; is_json := true; form := ∅;
     json := VStr <$> form posted |}.

(** The same option sent as a JSON object with numbers. *)
Definition sent : request Q :=
  {| method := "POST"; is_json := true; form := ∅;
     json := list_to_map [ ("payoff", VStr "max(S - 100, 0)");
                           ("spot", VInt 100); ("simulations", VInt 4);
                           ("seed", VInt 0) ] |}.

(** A matrix product as the payoff, and a spot that is no number. *)
Definition unsafe_request : request Q :=
  {| method := "POST"; is_json := true; form := ∅;
     json := list_to_map [ ("payoff", VStr "S @ 2"); ("spot", VStr "abc") ] |}.

(** A vanilla call with a spot that is no number. *)
Definition unreadable_request : request Q :=
  {| method := "POST"; is_json := true; form := ∅;
     json := list_to_map [ ("payoff", VStr "max(S - 100, 0)");
                           ("spot", VStr "abc") ] |}.

(** No path asked for. *)
Definition no_paths : MonteCarlo.MonteCarloParameters Q :=
  {| MonteCarlo.spot := 100%Q; MonteCarlo.maturity := 1%Q;
     MonteCarlo.rate := (5 # 100)%Q; MonteCarlo.volatility := (2 # 10)%Q;
     MonteCarlo.simulations := 0; MonteCarlo.seed := None |}.

End RationalWeb.

(** ** Further examples over the reals *)

Module RealSamples.
Import RealModel Sandbox.

Local Open Scope R_scope.

(** The tree of [max(S - 100, 0)]. *)
Definition vanilla_tree : node :=
  Call (Name "max" Load)
       [BinOp (Name "S" Load) Sub (Constant (CInt 100)); Constant (CInt 0)] [].

(** A digital call struck at 100: it pays one above the strike. *)
Definition digital_payoff (price : R) : result R :=
  Ok (if Rgtb price 100 then 1 else 0).

End RealSamples.

(** * Theorems *)

(** ** The error monad and the loops *)

Lemma bind_Ok_inv {A B : Type} (m : result A) (k : A -> result B) (b : B) :
  bind m k = Ok b -> exists a, m = Ok a /\ k a = Ok b.
Proof. destruct m as [a|e]; simpl; [eauto | discriminate]. Qed.

Lemma mapM_ext {A B : Type} (f g : A -> result B) (xs : list A) :
  (forall x, x ∈ xs -> f x = g x) -> mapM f xs = mapM g xs.
Proof.
  induction xs as [|x xs IH]; intros Hfg; simpl; [reflexivity|].
  rewrite (Hfg x) by apply list_elem_of_here.
  rewrite IH; [reflexivity|].
  intros y Hy. apply Hfg. by apply list_elem_of_further.
Qed.

Lemma mapM_length {A B : Type} (f : A -> result B) (xs : list A) (ys : list B) :
  mapM f xs = Ok ys -> length ys = length xs.
Proof.
  revert ys. induction xs as [|x xs IH]; intros ys; simpl.
  - intros [= <-]. reflexivity.
  - intros Hm. apply bind_Ok_inv in Hm as (y & _ & Hm).
    apply bind_Ok_inv in Hm as (ys' & Hys & [= <-]).
    simpl. f_equal. by apply IH.
Qed.

(** A comprehension that post-processes each element is the comprehension
    followed by [map]. *)
Lemma mapM_then_map {A B C : Type} (f : A -> result B) (g : B -> C)
    (xs : list A) :
  mapM (fun x => y <- f x ;; Ok (g y)) xs = (ys <- mapM f xs ;; Ok (map g ys)).
Proof.
  induction xs as [|x xs IH]; simpl; [reflexivity|].
  destruct (f x) as [y|e]; simpl; [|reflexivity].
  rewrite IH. destruct (mapM f xs); reflexivity.
Qed.

Lemma mapM_lookup {A B : Type} (f : A -> result B) (xs : list A)
    (ys : list B) (i : nat) (x : A) :
  mapM f xs = Ok ys -> xs !! i = Some x ->
  exists y, ys !! i = Some y /\ f x = Ok y.
Proof.
  revert ys i. induction xs as [|x0 xs IH]; intros ys i; simpl.
  - intros _ Hx. discriminate.
  - intros Hm Hx. apply bind_Ok_inv in Hm as (y0 & Hy0 & Hm).
    apply bind_Ok_inv in Hm as (ys' & Hys & [= <-]).
    destruct i as [|i]; simpl in *.
    + injection Hx as ->. eauto.
    + eapply IH; eauto.
Qed.

Lemma range_succ (n : nat) : range (Z.of_nat n + 1) = seq 0 (S n).
Proof. unfold range. f_equal. lia. Qed.

Lemma getitem_take {A : Type} (xs : list A) (n i : nat) :
  i < n -> getitem (take n xs) i = getitem xs i.
Proof. intros Hi. unfold getitem. by rewrite lookup_take_lt. Qed.

Lemma getitem_insert_ne {A : Type} (xs : list A) (i j : nat) (v : A) :
  i <> j -> getitem (<[i := v]> xs) j = getitem xs j.
Proof. intros Hij. unfold getitem. by rewrite list_lookup_insert_ne. Qed.

(** ** binomial_pricing.py *)

Module BinomialTheory.
Import Binomial.

Section Lattice.
Context {F : Type} `{PyFloat F}.
Variable params : BinomialParameters F.
Variable fac : factors F.

Hypothesis kind_known : option_type params ∈ ["call"; "put"].

(** For a call or a put, the nested [payoff] is the exercise value. *)
Lemma payoff_spec (price : F) :
  payoff params price = spec_exercise_value params price.
Proof.
  unfold payoff, spec_exercise_value.
  apply elem_of_cons in kind_known as [-> | Hput]; [reflexivity|].
  apply list_elem_of_singleton in Hput as ->. reflexivity.
Qed.

(** *** The in-place update computes the next level from the previous one *)

Lemma update_node_spec (step : nat) (values : list F) (i : nat) :
  i < length values ->
  update_node params fac step values i
  = (v <- spec_node_value params fac step values i ;; Ok (<[i := v]> values)).
Proof.
  intros Hi. unfold update_node, spec_node_value, setitem.
  apply Nat.ltb_lt in Hi. rewrite Hi.
  destruct (getitem values (i + 1)) as [v_up|]; simpl; [|reflexivity].
  destruct (getitem values i) as [v_down|]; simpl; [|reflexivity].
  destruct (american params); [|reflexivity].
  change (spec_underlying params fac (Z.of_nat step) i)
    with (node_price params fac (Z.of_nat step) i).
  destruct (node_price params fac (Z.of_nat step) i); simpl; [|reflexivity].
  by rewrite payoff_spec.
Qed.

Lemma spec_node_value_insert (step : nat) (values : list F) (a i : nat) (v : F) :
  a < i ->
  spec_node_value params fac step (<[a := v]> values) i
  = spec_node_value params fac step values i.
Proof.
  intros Hai. unfold spec_node_value.
  rewrite !getitem_insert_ne by lia. reflexivity.
Qed.

Lemma update_nodes_spec (step m a : nat) (values : list F) :
  a + m <= length values ->
  foldM (update_node params fac step) values (seq a m)
  = (new <- mapM (spec_node_value params fac step values) (seq a m) ;;
     Ok (take a values ++ new ++ drop (a + m) values)).
Proof.
  revert a values. induction m as [|m IH]; intros a values Hlen; simpl.
  - rewrite Nat.add_0_r. by rewrite take_drop.
  - rewrite update_node_spec by lia.
    destruct (spec_node_value params fac step values a) as [v|e] eqn:Hv;
      simpl; [|reflexivity].
    rewrite IH by (rewrite length_insert; lia).
    rewrite (mapM_ext (spec_node_value params fac step (<[a := v]> values))
                      (spec_node_value params fac step values)).
    2:{ intros i Hi. apply elem_of_seq in Hi.
        apply spec_node_value_insert. lia. }
    destruct (mapM _ (seq (S a) m)) as [new|e]; simpl; [|reflexivity].
    f_equal.
    rewrite (take_S_r _ a v) by (apply list_lookup_insert_eq; lia).
    rewrite take_insert_ge by lia.
    rewrite drop_insert_lt by lia.
    rewrite <- app_assoc. simpl.
    replace (S (a + m)) with (a + S m) by lia. reflexivity.
Qed.

Lemma update_level_spec (values : list F) (step : nat) :
  S step <= length values ->
  update_level params fac values step
  = (new <- spec_level params fac values step ;;
     Ok (new ++ drop (S step) values)).
Proof.
  intros Hlen. unfold update_level, spec_level.
  rewrite range_succ. rewrite update_nodes_spec by (simpl; lia).
  reflexivity.
Qed.

(** A level reads only the first [step + 2] values of the array. *)
Lemma spec_level_take (values : list F) (step : nat) :
  spec_level params fac (take (S (S step)) values) step
  = spec_level params fac values step.
Proof.
  unfold spec_level. rewrite range_succ.
  apply mapM_ext. intros i Hi. apply elem_of_seq in Hi.
  unfold spec_node_value. rewrite !getitem_take by lia. reflexivity.
Qed.

Lemma spec_level_length (values new : list F) (step : nat) :
  spec_level params fac values step = Ok new -> length new = S step.
Proof.
  unfold spec_level. rewrite range_succ. intros Hm.
  apply mapM_length in Hm. by rewrite length_seq in Hm.
Qed.

Lemma levels_spec (n : nat) (values : list F) :
  S n <= length values ->
  (final <- foldM (update_level params fac) values (rev (seq 0 n)) ;;
   getitem final 0)
  = (root <- foldM (spec_level params fac) (take (S n) values) (rev (seq 0 n)) ;;
     getitem root 0).
Proof.
  revert values. induction n as [|n IH]; intros values Hlen.
  - simpl rev. simpl foldM. simpl bind. by rewrite getitem_take by lia.
  - rewrite seq_S, rev_app_distr. simpl rev. simpl app. simpl foldM.
    rewrite update_level_spec by lia.
    rewrite spec_level_take.
    destruct (spec_level params fac values n) as [new|e] eqn:Hnew;
      simpl; [|reflexivity].
    apply spec_level_length in Hnew.
    rewrite IH by (rewrite length_app; lia).
    by rewrite take_app_length'.
Qed.

Lemma backward_induction_spec :
  (0 <= steps params)%Z ->
  backward_induction params fac = spec_lattice_value params fac.
Proof.
  intros Hsteps. unfold backward_induction, spec_lattice_value,
    spec_terminal_values.
  change (spec_underlying params fac (steps params))
    with (node_price params fac (steps params)).
  rewrite (mapM_then_map (node_price params fac (steps params))
                         (spec_exercise_value params)).
  destruct (mapM _ (range (steps params + 1))) as [prices|e] eqn:Hprices;
    simpl; [|reflexivity].
  rewrite (map_ext (payoff params) (spec_exercise_value params) payoff_spec).
  apply mapM_length in Hprices.
  unfold range in *. rewrite length_seq in Hprices.
  rewrite levels_spec by (rewrite length_map; lia).
  rewrite take_ge by (rewrite length_map; lia).
  reflexivity.
Qed.

End Lattice.

Section Validation.
Context {F : Type} `{PyFloat F}.

Lemma validated_inv (params : BinomialParameters F) :
  _validate_parameters params = Ok tt ->
  (spot params <=? f_zero)%fl = false
  /\ (strike params <=? f_zero)%fl = false
  /\ (maturity params <=? f_zero)%fl = false
  /\ (volatility params <=? f_zero)%fl = false
  /\ (0 < steps params)%Z
  /\ option_type params ∈ ["call"; "put"].
Proof.
  unfold _validate_parameters.
  destruct (spot params <=? f_zero)%fl; [discriminate|].
  destruct (strike params <=? f_zero)%fl; [discriminate|].
  destruct (maturity params <=? f_zero)%fl; [discriminate|].
  destruct (volatility params <=? f_zero)%fl; [discriminate|].
  destruct (Z.leb_spec (steps params) 0); [discriminate|].
  case_bool_decide; [|discriminate].
  intros _. repeat split; (assumption || lia).
Qed.

Lemma validate_outcome (params : BinomialParameters F) :
  _validate_parameters params = Ok tt
  \/ exists msg, _validate_parameters params = Raise (InvalidParameterError msg).
Proof.
  unfold _validate_parameters.
  repeat (match goal with
          | |- context [if ?b then _ else _] => destruct b
          end; [right; eexists; reflexivity|]).
  by left.
Qed.

End Validation.
End BinomialTheory.

(** ** Where the powers exist, the lattice yields a price *)

Lemma mapM_defined {A B : Type} (f : A -> result B) (xs : list A) :
  (forall x, x ∈ xs -> exists y, f x = Ok y) ->
  exists ys, mapM f xs = Ok ys.
Proof.
  induction xs as [|x xs IH]; intros Hf; simpl; [eauto|].
  destruct (Hf x) as [y ->]; [apply list_elem_of_here|].
  destruct IH as [ys ->].
  { intros z Hz. apply Hf. by apply list_elem_of_further. }
  simpl. eauto.
Qed.

Module LatticeTotality.
Import Binomial BinomialTheory.

Section Defined.
Context {F : Type} `{PyFloat F}.
Variable params : BinomialParameters F.
Variable fac : factors F.

Hypothesis pow_defined :
  forall (x : F) (k : Z), (0 <= k)%Z -> exists y, float_pow x k = Ok y.

Lemma underlying_total (n : Z) (i : nat) :
  (Z.of_nat i <= n)%Z ->
  exists price, spec_underlying params fac n i = Ok price.
Proof.
  intros Hi. unfold spec_underlying.
  destruct (pow_defined (up fac) (Z.of_nat i)) as [a ->]; [lia|].
  destruct (pow_defined (down fac) (n - Z.of_nat i)) as [b ->]; [lia|].
  simpl. eauto.
Qed.

Lemma spec_level_total (previous : list F) (step : nat) :
  S (S step) <= length previous ->
  exists new, spec_level params fac previous step = Ok new.
Proof.
  intros Hlen. unfold spec_level. rewrite range_succ.
  apply mapM_defined. intros i Hi. apply elem_of_seq in Hi.
  unfold spec_node_value, getitem.
  destruct (lookup_lt_is_Some_2 previous (i + 1)) as [v_up ->]; [lia|].
  destruct (lookup_lt_is_Some_2 previous i) as [v_down ->]; [lia|].
  simpl. destruct (american params); [|eauto].
  destruct (underlying_total (Z.of_nat step) i) as [price ->]; [lia|].
  simpl. eauto.
Qed.

Lemma spec_levels_total (n : nat) (values : list F) :
  length values = S n ->
  exists root, foldM (spec_level params fac) values (rev (seq 0 n)) = Ok root
               /\ length root = 1.
Proof.
  revert values. induction n as [|n IH]; intros values Hlen.
  - simpl. eauto.
  - rewrite seq_S, rev_app_distr. simpl.
    destruct (spec_level_total values n) as [new Hnew]; [lia|].
    rewrite Hnew. simpl. apply IH. by apply spec_level_length in Hnew.
Qed.

Lemma spec_lattice_value_total :
  (0 <= steps params)%Z -> exists v, spec_lattice_value params fac = Ok v.
Proof.
  intros Hsteps. unfold spec_lattice_value, spec_terminal_values.
  destruct (mapM_defined
              (fun j => price <- spec_underlying params fac (steps params) j ;;
                        Ok (spec_exercise_value params price))
              (range (steps params + 1))) as [terminal Hterm].
  { intros j Hj. unfold range in Hj. apply elem_of_seq in Hj.
    destruct (underlying_total (steps params) j) as [price ->]; [lia|].
    simpl. eauto. }
  rewrite Hterm. simpl.
  apply mapM_length in Hterm. unfold range in *. rewrite length_seq in Hterm.
  destruct (spec_levels_total (Z.to_nat (steps params)) terminal)
    as (root & -> & Hroot); [lia|].
  simpl. unfold getitem.
  destruct (lookup_lt_is_Some_2 root 0) as [v ->]; [lia|]. eauto.
Qed.

(** A validated input whose derived quantities exist and whose probability
    is in range is priced. *)
Lemma price_option_total :
  _validate_parameters params = Ok tt ->
  derive_factors params = Ok fac ->
  probability_in_range (probability fac) = true ->
  exists v, price_option params = Ok v.
Proof.
  intros Hvalid Hfac Hrange. unfold price_option.
  rewrite Hvalid, Hfac. simpl. rewrite Hrange. simpl.
  apply validated_inv in Hvalid as (_ & _ & _ & _ & Hsteps & Hkind).
  rewrite backward_induction_spec by (assumption || lia).
  apply spec_lattice_value_total. lia.
Qed.

End Defined.
End LatticeTotality.

Module BinomialClaims.
Import Binomial BinomialTheory.

Section Claims.
Context {F : Type} `{PyFloat F}.

(** C4: for validated parameters whose derived probability passes the range
    check, [price_option] returns exactly the value of the lattice the
    specification describes: terminal node [j] holds the payoff of
    [spot * u^j * d^(steps - j)], each earlier level [step] holds at node [i]
    the continuation [disc * (p * V[i+1] + (1 - p) * V[i])] of the previous
    array (for American exercise its maximum with the immediate payoff at
    [spot * u^i * d^(step - i)]), and the answer is node 0 of level 0.  The
    in-place updates of the code never read a value they have already
    overwritten. *)
Theorem price_option_is_lattice_value (params : BinomialParameters F)
    (fac : factors F) :
  _validate_parameters params = Ok tt ->
  derive_factors params = Ok fac ->
  probability_in_range (probability fac) = true ->
  price_option params = spec_lattice_value params fac.
Proof.
  intros Hvalid Hfac Hrange. unfold price_option.
  rewrite Hvalid, Hfac. simpl. rewrite Hrange. simpl.
  apply validated_inv in Hvalid as (_ & _ & _ & _ & Hsteps & Hkind).
  apply backward_induction_spec; [assumption | lia].
Qed.

(** C5: a non-positive spot, strike, maturity, volatility or step count, an
    option kind other than call or put, or a derived probability outside
    [0, 1] makes [price_option] raise [InvalidParameterError]; the error
    comes from the validation or from the probability check, both of which
    precede the construction of the tree, and no price is returned. *)
Theorem price_option_rejects (params : BinomialParameters F) :
  rejected_input params ->
  exists msg,
    price_option params = Raise (InvalidParameterError msg)
    /\ (_validate_parameters params = Raise (InvalidParameterError msg)
        \/ (_validate_parameters params = Ok tt
            /\ exists fac, derive_factors params = Ok fac
                 /\ probability_in_range (probability fac) = false)).
Proof.
  intros Hrej. unfold price_option.
  destruct (validate_outcome params) as [Hok | [msg Herr]].
  - pose proof (validated_inv params Hok) as (Hs & Hk & Hm & Hv & Hn & Ho).
    destruct Hrej as [Hr|[Hr|[Hr|[Hr|[Hr|[Hr|Hr]]]]]];
      try congruence; try lia; try contradiction.
    destruct Hr as (fac & Hfac & Hrange).
    rewrite Hok, Hfac. simpl. rewrite Hrange. simpl.
    eexists. split; [reflexivity|]. right. eauto.
  - exists msg. rewrite Herr. simpl. auto.
Qed.

(** C10: [price_option_simplified] returns what [price_option] returns on
    the [BinomialParameters] built from the same arguments, the same value
    or the same exception, with the same defaults for omitted arguments. *)
Theorem price_option_simplified_forwards (spot strike maturity rate volatility : F)
    (steps : Z) (option_type : option string) (american : option bool)
    (dividend_yield : option F) :
  price_option_simplified spot strike maturity rate volatility steps
    option_type american dividend_yield
  = price_option
      (BinomialParameters_init spot strike maturity rate volatility steps
         dividend_yield option_type american).
Proof.
  unfold price_option_simplified, BinomialParameters_init.
  destruct option_type, american, dividend_yield; reflexivity.
Qed.

End Claims.
End BinomialClaims.

(** ** American against European exercise *)

Lemma mapM_Forall2 {A B : Type} (R : B -> B -> Prop) (f g : A -> result B)
    (xs : list A) (ys : list B) :
  (forall x y, x ∈ xs -> f x = Ok y -> exists y', g x = Ok y' /\ R y y') ->
  mapM f xs = Ok ys ->
  exists ys', mapM g xs = Ok ys' /\ Forall2 R ys ys'.
Proof.
  revert ys. induction xs as [|x xs IH]; intros ys Hfg; simpl.
  - intros [= <-]. exists []. split; [reflexivity | constructor].
  - intros Hm. apply bind_Ok_inv in Hm as (y & Hy & Hm).
    apply bind_Ok_inv in Hm as (ys0 & Hys0 & [= <-]).
    destruct (Hfg x y) as (y' & Hy' & Hyy'); [apply list_elem_of_here | done |].
    destruct (IH ys0) as (ys' & Hys' & Hall); [|done|].
    { intros z w Hz. apply Hfg. by apply list_elem_of_further. }
    exists (y' :: ys'). rewrite Hy', Hys'. simpl. split; [reflexivity|].
    by constructor.
Qed.

Module ExerciseOrder.
Import Binomial BinomialTheory.

Section Order.
Context {F : Type} `{OrderedFloat F}.
Variable params : BinomialParameters F.
Variable fac : factors F.

Let european := with_american false params.
Let american_ := with_american true params.

Hypothesis probability_nonneg : fle f_zero (probability fac).
Hypothesis probability_le_one : fle (probability fac) f_one.
Hypothesis discount_nonneg : fle f_zero (discount fac).

Lemma continuation_mono (e1 e0 a1 a0 : F) :
  fle e1 a1 -> fle e0 a0 ->
  fle (discount fac * (probability fac * e1
                       + (f_one - probability fac) * e0))%fl
      (discount fac * (probability fac * a1
                       + (f_one - probability fac) * a0))%fl.
Proof.
  intros Hup Hdn. apply mul_mono; [exact discount_nonneg|].
  apply add_mono; apply mul_mono; try assumption.
  by apply complement_nonneg.
Qed.

Lemma py_max_ge_first (a b : F) : fle a (py_max a b).
Proof.
  unfold py_max, fle. destruct (b >? a)%fl eqn:Hgt.
  - by apply gtb_leb.
  - apply leb_refl.
Qed.

Lemma underlying_defined (n step i : nat) :
  powers_defined fac n -> step <= n -> i <= step ->
  exists price, spec_underlying american_ fac (Z.of_nat step) i = Ok price.
Proof.
  intros Hpow Hstep Hi. unfold spec_underlying.
  destruct (Hpow i) as [[x Hx] _]; [lia|].
  destruct (Hpow (step - i)) as [_ [y Hy]]; [lia|].
  rewrite Hx. simpl.
  replace (Z.of_nat step - Z.of_nat i)%Z with (Z.of_nat (step - i)) by lia.
  rewrite Hy. simpl. eauto.
Qed.

Lemma getitem_Forall2 (es as_ : list F) (i : nat) (e : F) :
  Forall2 fle es as_ -> getitem es i = Ok e ->
  exists a, getitem as_ i = Ok a /\ fle e a.
Proof.
  intros Hall. unfold getitem.
  destruct (es !! i) as [e'|] eqn:He; [|discriminate].
  intros [= ->].
  destruct (Forall2_lookup_l _ _ _ _ _ Hall He) as (a & Ha & Hle).
  rewrite Ha. eauto.
Qed.

Lemma node_value_mono (n step i : nat) (es as_ : list F) (e : F) :
  powers_defined fac n -> step <= n -> i <= step ->
  Forall2 fle es as_ ->
  spec_node_value european fac step es i = Ok e ->
  exists a, spec_node_value american_ fac step as_ i = Ok a /\ fle e a.
Proof.
  intros Hpow Hstep Hi Hall. unfold spec_node_value.
  intros He. apply bind_Ok_inv in He as (e1 & He1 & He).
  apply bind_Ok_inv in He as (e0 & He0 & He).
  simpl in He. injection He as <-.
  destruct (getitem_Forall2 _ _ _ _ Hall He1) as (a1 & -> & Hup).
  destruct (getitem_Forall2 _ _ _ _ Hall He0) as (a0 & -> & Hdn).
  destruct (underlying_defined n step i) as (price & ->); try assumption.
  simpl. eexists. split; [reflexivity|].
  eapply leb_trans; [by apply continuation_mono | apply py_max_ge_first].
Qed.

Lemma level_mono (n step : nat) (es as_ es' : list F) :
  powers_defined fac n -> step <= n ->
  Forall2 fle es as_ ->
  spec_level european fac es step = Ok es' ->
  exists as', spec_level american_ fac as_ step = Ok as' /\ Forall2 fle es' as'.
Proof.
  intros Hpow Hstep Hall. unfold spec_level. rewrite range_succ.
  apply mapM_Forall2. intros i e Hi. apply elem_of_seq in Hi.
  apply (node_value_mono n); (assumption || lia).
Qed.

Lemma levels_mono (n m : nat) (es as_ es' : list F) :
  powers_defined fac n -> m <= S n ->
  Forall2 fle es as_ ->
  foldM (spec_level european fac) es (rev (seq 0 m)) = Ok es' ->
  exists as', foldM (spec_level american_ fac) as_ (rev (seq 0 m)) = Ok as'
              /\ Forall2 fle es' as'.
Proof.
  intros Hpow. revert es as_. induction m as [|m IH]; intros es as_ Hm Hall.
  - simpl. intros [= <-]. eauto.
  - rewrite seq_S, rev_app_distr. simpl. intros Hfold.
    apply bind_Ok_inv in Hfold as (es1 & Hes1 & Hfold).
    destruct (level_mono n m es as_ es1) as (as1 & -> & Hall1);
      try assumption; [lia|].
    simpl. apply (IH es1); (assumption || lia).
Qed.

Lemma terminal_powers (terminal : list F) :
  (0 <= steps params)%Z ->
  spec_terminal_values params fac = Ok terminal ->
  powers_defined fac (Z.to_nat (steps params)).
Proof.
  intros Hsteps Hterm k Hk. unfold spec_terminal_values, range in Hterm.
  assert (Hin : forall j, j <= Z.to_nat (steps params) ->
            exists price,
              spec_underlying params fac (steps params) j = Ok price).
  { intros j Hj.
    destruct (mapM_lookup _ _ _ j j Hterm) as (v & _ & Hv).
    - apply lookup_seq. split; [reflexivity | lia].
    - apply bind_Ok_inv in Hv as (price & Hprice & _). eauto. }
  split.
  - destruct (Hin k Hk) as (price & Hprice).
    unfold spec_underlying in Hprice.
    apply bind_Ok_inv in Hprice as (x & Hx & _). eauto.
  - destruct (Hin (Z.to_nat (steps params) - k)) as (price & Hprice); [lia|].
    unfold spec_underlying in Hprice.
    apply bind_Ok_inv in Hprice as (x & _ & Hprice).
    apply bind_Ok_inv in Hprice as (y & Hy & _).
    replace (steps params - Z.of_nat (Z.to_nat (steps params) - k))%Z
      with (Z.of_nat k) in Hy by lia.
    eauto.
Qed.

Lemma Forall2_fle_refl (xs : list F) : Forall2 fle xs xs.
Proof. induction xs; constructor; [apply leb_refl | assumption]. Qed.

Lemma lattice_value_mono (e : F) :
  (0 <= steps params)%Z ->
  spec_lattice_value european fac = Ok e ->
  exists a, spec_lattice_value american_ fac = Ok a /\ fle e a.
Proof.
  intros Hsteps. unfold spec_lattice_value.
  change (spec_terminal_values european fac)
    with (spec_terminal_values params fac).
  change (spec_terminal_values american_ fac)
    with (spec_terminal_values params fac).
  change (steps european) with (steps params).
  change (steps american_) with (steps params).
  intros He. apply bind_Ok_inv in He as (terminal & Hterm & He).
  apply bind_Ok_inv in He as (root & Hroot & He).
  rewrite Hterm. simpl.
  pose proof (terminal_powers terminal Hsteps Hterm) as Hpow.
  destruct (levels_mono _ (Z.to_nat (steps params)) terminal terminal root Hpow)
    as (root' & Hroot' & Hall);
    [lia | apply Forall2_fle_refl | exact Hroot |].
  unfold range. rewrite Hroot'. simpl.
  by apply (getitem_Forall2 root).
Qed.

End Order.

Section Claim.
Context {F : Type} `{OrderedFloat F}.

Lemma derive_factors_discount (params : BinomialParameters F) (fac : factors F) :
  derive_factors params = Ok fac ->
  exists x, math_exp x = Ok (discount fac).
Proof.
  unfold derive_factors. intros Hd.
  repeat (apply bind_Ok_inv in Hd as (? & ? & Hd)).
  injection Hd as <-. simpl. eauto.
Qed.

Lemma price_option_Ok_inv (params : BinomialParameters F) (v : F) :
  price_option params = Ok v ->
  exists fac,
    _validate_parameters params = Ok tt
    /\ derive_factors params = Ok fac
    /\ probability_in_range (probability fac) = true
    /\ backward_induction params fac = Ok v.
Proof.
  unfold price_option. intros Hp.
  apply bind_Ok_inv in Hp as ([] & Hvalid & Hp).
  apply bind_Ok_inv in Hp as (fac & Hfac & Hp).
  destruct (probability_in_range (probability fac)) eqn:Hrange;
    [|discriminate].
  exists fac. auto.
Qed.


End Claim.
End ExerciseOrder.

(** ** monte_carlo_pricing.py: the Monte Carlo engine *)

Lemma mapM_raise_at {A B : Type} (f : A -> result B) (xs : list A) (k : nat)
    (x : A) (e : exn) :
  xs !! k = Some x -> f x = Raise e ->
  (exists e', mapM f xs = Raise e')
  /\ ((forall j x', j < k -> xs !! j = Some x' -> exists y, f x' = Ok y) ->
      mapM f xs = Raise e).
Proof.
  revert k. induction xs as [|x0 xs IH]; intros k Hk Hfx; [discriminate|].
  destruct k as [|k]; simpl in *.
  - injection Hk as ->. rewrite Hfx. simpl. eauto.
  - destruct (IH k Hk Hfx) as [[e' He'] Hfirst].
    destruct (f x0) as [y0|e0] eqn:Hf0; simpl.
    + rewrite He'. simpl. split; [eauto|].
      intros Hbefore. rewrite Hfirst in He'.
      * congruence.
      * intros j x' Hj Hx'. apply (Hbefore (S j) x'); [lia | exact Hx'].
    + split; [eauto|]. intros Hbefore.
      destruct (Hbefore 0 x0) as [y Hy]; [lia | reflexivity | congruence].
Qed.

Module MonteCarloTheory.
Import MonteCarlo.

Section Engine.
Context {F : Type} `{PyFloat F} `{RandomSource F}.
Variable params : MonteCarloParameters F.
Variable payoff : F -> result F.

Lemma draws_length (n : nat) (g : rng) : length (draws n g) = n.
Proof.
  revert g. induction n as [|n IH]; intros g; simpl; [reflexivity|].
  destruct (normalvariate g f_zero f_one) as [z g']. simpl. by rewrite IH.
Qed.

(** The loop is the sequential sum of the trials of the first [n] variates,
    and it leaves the generator advanced by exactly [n] draws. *)
Lemma simulate_paths_spec (drift diffusion : F) (n start : nat) (total : F)
    (g : rng) :
  foldM (simulate_path params payoff drift diffusion) (total, g) (seq start n)
  = (payoffs <- mapM (spec_trial params payoff drift diffusion) (draws n g) ;;
     Ok (fold_left f_add payoffs total, after_draws n g)).
Proof.
  revert start total g. induction n as [|n IH]; intros start total g; simpl;
    [reflexivity|].
  destruct (normalvariate g f_zero f_one) as [z g'] eqn:Hdraw. simpl.
  unfold spec_trial at 1, terminal_price.
  destruct (math_exp (drift + diffusion * z)%fl) as [growth|e]; simpl;
    [|reflexivity].
  destruct (payoff (spot params * growth)%fl) as [value|e]; simpl;
    [|reflexivity].
  rewrite IH.
  destruct (mapM _ (draws n g')); reflexivity.
Qed.

Lemma coefficients_spec :
  coefficients params
  = (drift <- spec_drift params ;;
     diffusion <- spec_diffusion params ;;
     Ok (drift, diffusion)).
Proof.
  unfold coefficients, spec_drift, spec_diffusion.
  destruct (float_pow (volatility params) 2); simpl; [|reflexivity].
  destruct (math_sqrt (maturity params)); reflexivity.
Qed.

Lemma simulate_spec (drift diffusion : F) (g : rng) :
  simulate params payoff drift diffusion g
  = (payoffs <- mapM (spec_trial params payoff drift diffusion)
                     (draws (Z.to_nat (simulations params)) g) ;;
     Ok (fold_left f_add payoffs f_zero,
         after_draws (Z.to_nat (simulations params)) g)).
Proof. unfold simulate, range. apply simulate_paths_spec. Qed.

Lemma price_option_monte_carlo_spec (entropy : Z) :
  price_option_monte_carlo params payoff entropy
  = (_validate_monte_carlo_parameters params ;;;
     spec_estimate params payoff
       (draws (Z.to_nat (simulations params))
              (Random (seed params) entropy))).
Proof.
  unfold price_option_monte_carlo, spec_estimate.
  destruct (_validate_monte_carlo_parameters params); simpl; [|reflexivity].
  rewrite coefficients_spec.
  destruct (spec_drift params) as [drift|e]; simpl; [|reflexivity].
  destruct (spec_diffusion params) as [diffusion|e]; simpl; [|reflexivity].
  rewrite simulate_spec.
  destruct (mapM _ _); reflexivity.
Qed.

End Engine.
End MonteCarloTheory.

Module MonteCarloClaims.
Import MonteCarlo MonteCarloTheory.

Section Claims.
Context {F : Type} `{PyFloat F} `{RandomSource F}.

(** C7: for validated parameters, [price_option_monte_carlo] returns
    [exp(-rate * maturity) * (sum of the payoffs / simulations)], where the
    payoffs are those of the terminal prices [spot * exp(drift + diffusion * z)]
    of the first [simulations] variates of the generator, added in draw order;
    the loop draws exactly one variate per path, so it leaves the generator
    [simulations] draws further, and the divisor is the requested count. *)
Theorem price_option_monte_carlo_estimate (params : MonteCarloParameters F)
    (payoff : F -> result F) (entropy : Z) :
  _validate_monte_carlo_parameters params = Ok tt ->
  let n := Z.to_nat (simulations params) in
  let g := Random (seed params) entropy in
  price_option_monte_carlo params payoff entropy
  = spec_estimate params payoff (draws n g)
  /\ length (draws n g) = n
  /\ forall drift diffusion out,
       simulate params payoff drift diffusion g = Ok out ->
       snd out = after_draws n g.
Proof.
  intros Hvalid n g. split; [|split].
  - rewrite price_option_monte_carlo_spec, Hvalid. reflexivity.
  - apply draws_length.
  - intros drift diffusion out. rewrite simulate_spec.
    intros Hout. apply bind_Ok_inv in Hout as (payoffs & _ & [= <-]).
    reflexivity.
Qed.

(** C8: with an explicit seed the result does not depend on the entropy of
    the run: two calls with the same parameters and the same payoff return
    the same result, which is the estimate over the variates of the
    generator seeded with that seed, taken in draw order. *)
Theorem seeded_runs_agree (params : MonteCarloParameters F)
    (payoff : F -> result F) (s : Z) (entropy1 entropy2 : Z) :
  seed params = Some s ->
  price_option_monte_carlo params payoff entropy1
  = price_option_monte_carlo params payoff entropy2
  /\ price_option_monte_carlo params payoff entropy1
     = (_validate_monte_carlo_parameters params ;;;
        spec_estimate params payoff
          (draws (Z.to_nat (simulations params)) (seed_rng s))).
Proof.
  intros Hseed. rewrite !price_option_monte_carlo_spec, Hseed.
  split; reflexivity.
Qed.

(** C9: if the payoff raises at the terminal price of some path, the call
    raises and returns no price; when every earlier path evaluates, the
    exception raised is the payoff's own. *)
Theorem payoff_error_propagates (params : MonteCarloParameters F)
    (payoff : F -> result F) (entropy : Z) (drift diffusion : F)
    (k : nat) (z price : F) (e : exn) :
  _validate_monte_carlo_parameters params = Ok tt ->
  coefficients params = Ok (drift, diffusion) ->
  let zs := draws (Z.to_nat (simulations params))
                  (Random (seed params) entropy) in
  zs !! k = Some z ->
  terminal_price params drift diffusion z = Ok price ->
  payoff price = Raise e ->
  (exists e', price_option_monte_carlo params payoff entropy = Raise e')
  /\ ((forall j z', j < k -> zs !! j = Some z' ->
         exists price' v,
           terminal_price params drift diffusion z' = Ok price'
           /\ payoff price' = Ok v) ->
      price_option_monte_carlo params payoff entropy = Raise e).
Proof.
  intros Hvalid Hcoef zs Hk Hprice Hpay.
  assert (Htrial : forall z' price',
             terminal_price params drift diffusion z' = Ok price' ->
             spec_trial params payoff drift diffusion z' = payoff price').
  { intros z' price'. unfold terminal_price, spec_trial.
    destruct (math_exp _); simpl; [|discriminate]. by intros [= <-]. }
  rewrite price_option_monte_carlo_spec, Hvalid. simpl.
  unfold spec_estimate. rewrite coefficients_spec in Hcoef.
  destruct (spec_drift params) as [drift'|]; simpl in *; [|discriminate].
  destruct (spec_diffusion params) as [diffusion'|]; simpl in *;
    [|discriminate].
  injection Hcoef as -> ->.
  destruct (mapM_raise_at (spec_trial params payoff drift diffusion)
              zs k z e Hk) as [[e' He'] Hfirst].
  { rewrite (Htrial z price Hprice). exact Hpay. }
  fold zs. split.
  - exists e'. rewrite He'. reflexivity.
  - intros Hbefore. rewrite Hfirst; [reflexivity|].
    intros j z' Hj Hz'.
    destruct (Hbefore j z' Hj Hz') as (price' & v & Hprice' & Hv).
    exists v. by rewrite (Htrial z' price' Hprice').
Qed.

End Claims.
End MonteCarloClaims.

(** ** monte_carlo_pricing.py: the payoff sandbox *)

Lemma bind_Raise_inv {A B : Type} (m : result A) (k : A -> result B) (e : exn) :
  bind m k = Raise e -> m = Raise e \/ exists a, m = Ok a /\ k a = Raise e.
Proof. destruct m as [a|e']; simpl; [eauto | intros [= ->]; auto]. Qed.

Lemma each_Ok {A : Type} (f : A -> result unit) (xs : list A) :
  each f xs = Ok tt -> Forall (fun x => f x = Ok tt) xs.
Proof.
  induction xs as [|x xs IH]; simpl; intros Hx; [constructor|].
  apply bind_Ok_inv in Hx as ([] & Hfx & Hrest). constructor; auto.
Qed.

Lemma each_Raise {A : Type} (f : A -> result unit) (xs : list A) (e : exn) :
  each f xs = Raise e -> Exists (fun x => f x = Raise e) xs.
Proof.
  induction xs as [|x xs IH]; simpl; intros Hx; [discriminate|].
  apply bind_Raise_inv in Hx as [Hx | ([] & _ & Hx)].
  - by apply Exists_cons_hd.
  - apply Exists_cons_tl. auto.
Qed.

Module SandboxTheory.
Import Sandbox.

(** Induction on syntax trees, with the lists of children covered. *)
Lemma node_induction (P : node -> Prop) :
  (forall lhs op rhs, P lhs -> P rhs -> P (BinOp lhs op rhs)) ->
  (forall op operand, P operand -> P (UnaryOp op operand)) ->
  (forall op values, Forall P values -> P (BoolOp op values)) ->
  (forall test body orelse,
      P test -> P body -> P orelse -> P (IfExp test body orelse)) ->
  (forall lhs ops comparators,
      P lhs -> Forall P comparators -> P (Compare lhs ops comparators)) ->
  (forall func args keywords,
      P func -> Forall P args -> Forall P keywords ->
      P (Call func args keywords)) ->
  (forall c, P (Constant c)) ->
  (forall value attr ctx, P value -> P (Attribute value attr ctx)) ->
  (forall id ctx, P (Name id ctx)) ->
  (forall cls children, Forall P children -> P (Other cls children)) ->
  forall n, P n.
Proof.
  intros HBin HUn HBool HIf HCmp HCall HConst HAttr HName HOther.
  fix IH 1. intros n.
  assert (Hall : forall ns, Forall P ns).
  { fix IHs 1. intros [|m ns]; constructor; [apply IH | apply IHs]. }
  destruct n.
  - apply HBin; apply IH.
  - apply HUn; apply IH.
  - apply HBool; apply Hall.
  - apply HIf; apply IH.
  - apply HCmp; [apply IH | apply Hall].
  - apply HCall; [apply IH | apply Hall | apply Hall].
  - apply HConst.
  - apply HAttr; apply IH.
  - apply HName.
  - apply HOther; apply Hall.
Qed.


Lemma check_allowed_Ok (cls : string) :
  check_allowed cls = Ok tt -> allowed_kind cls.
Proof. unfold check_allowed. case_bool_decide; [done | discriminate]. Qed.

Lemma check_allowed_Raise (cls : string) (e : exn) :
  check_allowed cls = Raise e -> ~ allowed_kind cls /\ e = unsafe_component cls.
Proof.
  unfold check_allowed. case_bool_decide; [discriminate|].
  intros [= <-]. auto.
Qed.

Lemma Forall_subnodes (P : node -> Prop) (ns : list node) :
  Forall (fun n => Forall P (subnodes n)) ns ->
  Forall P (concat (map subnodes ns)).
Proof.
  intros Hall. apply Forall_concat. apply Forall_map.
  exact Hall.
Qed.

Lemma Exists_subnodes (P : node -> Prop) (ns : list node) :
  Exists (fun n => Exists P (subnodes n)) ns ->
  Exists P (concat (map subnodes ns)).
Proof.
  induction 1 as [n ns Hn | n ns _ IH]; simpl; apply Exists_app; auto.
Qed.

Ltac allowed_by_list :=
  unfold allowed_kind; apply (bool_decide_unpack _); vm_compute; exact I.

Ltac ok_step H :=
  let u := fresh "u" in
  let Hc := fresh "Hc" in
  apply bind_Ok_inv in H as (u & Hc & H); destruct u.

Lemma visit_children_good (ns : list node) :
  Forall (fun n => visit n = Ok tt -> loads_outside_binders n = true ->
                   Forall good (subnodes n)) ns ->
  each visit ns = Ok tt ->
  forallb loads_outside_binders ns = true ->
  Forall good (concat (map subnodes ns)).
Proof.
  intros IH Hv Hl. apply Forall_subnodes.
  apply each_Ok in Hv. rewrite forallb_forall in Hl.
  rewrite Forall_forall in *. intros n Hn.
  apply IH; auto. apply Hl. by apply list_elem_of_In.
Qed.

Lemma no_call_no_name (n : node) :
  (forall func args keywords, n <> Call func args keywords) ->
  (forall id ctx, n <> Name id ctx) ->
  ~ bad_call n /\ forall id, ~ bad_identifier n id.
Proof.
  intros Hcall Hname. split.
  - intros (func & args & keywords & -> & _). by eapply Hcall.
  - intros id [[ctx ->] _]. by eapply Hname.
Qed.

(** A tree the validator accepts lies inside the grammar. *)
Lemma accepted_good (n : node) :
  visit n = Ok tt -> loads_outside_binders n = true ->
  Forall good (subnodes n).
Proof.
  induction n using node_induction; simpl; intros Hv Hl.
  - ok_step Hv. ok_step Hv.
    apply andb_prop in Hl as [Hl1 Hl2].
    constructor; [|apply Forall_app; auto].
    split; [|by apply no_call_no_name].
    simpl. apply Forall_cons_2; [allowed_by_list|].
    apply Forall_cons_2; [by apply check_allowed_Ok | apply Forall_nil_2].
  - ok_step Hv.
    constructor; [|auto].
    split; [|by apply no_call_no_name].
    simpl. apply Forall_cons_2; [allowed_by_list|].
    apply Forall_cons_2; [by apply check_allowed_Ok | apply Forall_nil_2].
  - discriminate.
  - ok_step Hv. ok_step Hv.
    apply andb_prop in Hl as [Hl Hl3]. apply andb_prop in Hl as [Hl1 Hl2].
    constructor; [|repeat (apply Forall_app; split); auto].
    split; [|by apply no_call_no_name].
    simpl. apply Forall_cons_2; [allowed_by_list | apply Forall_nil_2].
  - ok_step Hv. ok_step Hv.
    apply andb_prop in Hl as [Hl1 Hl2].
    constructor.
    + split; [|by apply no_call_no_name].
      simpl. constructor; [allowed_by_list|].
      apply each_Ok in Hc0. rewrite Forall_forall in *.
      intros c Hin. apply check_allowed_Ok. auto.
    + apply Forall_app. split; [auto|]. by apply visit_children_good.
  - destruct (allowed_callee n) eqn:Hcallee; simpl in Hv; [|discriminate].
    ok_step Hv. ok_step Hv.
    apply andb_prop in Hl as [Hl Hl3]. apply andb_prop in Hl as [Hl1 Hl2].
    constructor.
    + split; [simpl; apply Forall_cons_2; [allowed_by_list | apply Forall_nil_2]|].
      split.
      * intros (func & args' & keywords' & [= <- <- <-] & Hbad). congruence.
      * intros id [[ctx [=]] _].
    + repeat (apply Forall_app; split); auto using visit_children_good.
  - constructor; [|constructor].
    split; [|by apply no_call_no_name].
    simpl. apply Forall_cons_2; [allowed_by_list | apply Forall_nil_2].
  - discriminate.
  - constructor; [|constructor].
    split; [|split].
    + simpl. constructor; [allowed_by_list|].
      destruct ctx; try discriminate.
      apply Forall_cons_2; [allowed_by_list | apply Forall_nil_2].
    + intros (func & args & keywords & [=] & _).
    + intros id' [[ctx' [= <- <-]] [Hallowed Hs]].
      rewrite Hallowed in Hv. simpl in Hv.
      apply String.eqb_neq in Hs. rewrite Hs in Hv. discriminate.
  - destruct cls; discriminate.
Qed.


Lemma visit_eq (n : node) :
  visit n
  = (check_allowed (class_name n) ;;;
     match n with
     | Call func args keywords =>
         if negb (allowed_callee func) then
           Raise (InvalidPayoffError call_message)
         else
           visit func ;;; each visit args ;;; each visit keywords
     | Name id _ =>
         if negb (allowed_name id) && negb (String.eqb id "S") then
           Raise (unknown_identifier id)
         else Ok tt
     | BinOp lhs op rhs =>
         visit lhs ;;; check_allowed (operator_name op) ;;; visit rhs
     | UnaryOp op operand =>
         check_allowed (unaryop_name op) ;;; visit operand
     | BoolOp op values =>
         check_allowed (boolop_name op) ;;; each visit values
     | IfExp test body orelse =>
         visit test ;;; visit body ;;; visit orelse
     | Compare lhs ops comparators =>
         visit lhs ;;; each check_allowed (map cmpop_name ops) ;;;
         each visit comparators
     | Constant _ => Ok tt
     | Attribute value _ ctx =>
         visit value ;;; check_allowed (context_name ctx)
     | Other _ children => each visit children
     end).
Proof. destruct n; reflexivity. Qed.

Lemma own_kind_offence (n : node) (cls : string) (e : exn) :
  cls ∈ own_kinds n -> check_allowed cls = Raise e -> offence e n.
Proof.
  intros Hin Hc. apply check_allowed_Raise in Hc as [Hno ->].
  left. eauto.
Qed.

Lemma visit_children_offence (ns : list node) (e : exn) :
  Forall (fun n => forall e, visit n = Raise e ->
                             Exists (offence e) (subnodes n)) ns ->
  each visit ns = Raise e ->
  Exists (offence e) (concat (map subnodes ns)).
Proof.
  intros IH Hv. apply Exists_subnodes. apply each_Raise in Hv.
  apply Exists_exists in Hv as (n & Hn & Hv).
  apply Exists_exists. exists n. split; [exact Hn|].
  rewrite Forall_forall in IH. by apply IH.
Qed.

Ltac raise_step H :=
  let u := fresh "u" in
  apply bind_Raise_inv in H as [H | (u & _ & H)]; [|destruct u].

Ltac in_child :=
  apply Exists_cons_tl; rewrite ?Exists_app;
  let close := eauto using visit_children_offence in
  first [ solve [close] | solve [left; close] | solve [right; close]
        | solve [right; left; close] | solve [right; right; close] ].

Ltac blame_self H :=
  apply Exists_cons_hd; refine (own_kind_offence _ _ _ _ H);
  cbn [own_kinds class_name]; set_solver.

(** A rejection blames a node of the tree that is outside the grammar. *)
Lemma rejected_offence (n : node) (e : exn) :
  visit n = Raise e -> Exists (offence e) (subnodes n).
Proof.
  revert e. induction n using node_induction; intros e;
    rewrite visit_eq; cbn [class_name subnodes]; intros Hv;
    (raise_step Hv; [blame_self Hv|]).
  - raise_step Hv; [in_child|].
    raise_step Hv; [blame_self Hv | in_child].
  - raise_step Hv; [blame_self Hv | in_child].
  - raise_step Hv; [blame_self Hv|].
    in_child.
  - raise_step Hv; [in_child|].
    raise_step Hv; in_child.
  - raise_step Hv; [in_child|].
    raise_step Hv; [|in_child].
    apply each_Raise, Exists_exists in Hv as (cls & Hcls & Hv).
    apply Exists_cons_hd. refine (own_kind_offence _ _ _ _ Hv).
    cbn [own_kinds]. by apply list_elem_of_further.
  - destruct (allowed_callee n) eqn:Hcallee; cbn [negb] in Hv.
    + raise_step Hv; [in_child|].
      raise_step Hv; in_child.
    + injection Hv as <-. apply Exists_cons_hd. right. left.
      split; [|reflexivity]. unfold bad_call. eauto.
  - discriminate.
  - raise_step Hv; [in_child | blame_self Hv].
  - destruct (allowed_name id) eqn:Hallowed; cbn [negb andb] in Hv;
      [discriminate|].
    destruct (String.eqb_spec id "S") as [->|Hs]; cbn [negb] in Hv;
      [discriminate|].
    injection Hv as <-. apply Exists_cons_hd. right. right.
    exists id. split; [|reflexivity]. unfold bad_identifier. eauto.
  - in_child.
Qed.

Lemma Expression_allowed : check_allowed "Expression" = Ok tt.
Proof. by vm_compute. Qed.

Lemma visit_module_eq (body : node) :
  visit_module (Expression body) = visit body.
Proof. unfold visit_module. by rewrite Expression_allowed. Qed.

Lemma good_kinds (body : node) :
  Forall good (subnodes body) -> Forall allowed_kind (kinds body).
Proof.
  intros Hall. unfold kinds. apply Forall_concat, Forall_map.
  eapply Forall_impl; [exact Hall|]. by intros m [Hk _].
Qed.

Lemma own_kinds_in_kinds (body m : node) (cls : string) :
  m ∈ subnodes body -> cls ∈ own_kinds m -> cls ∈ kinds body.
Proof.
  intros Hm Hcls. unfold kinds. apply list_elem_of_In, in_concat.
  exists (own_kinds m). split; [|by apply list_elem_of_In].
  apply in_map. by apply list_elem_of_In.
Qed.

Lemma good_inside_grammar (body : node) :
  Forall good (subnodes body) -> ~ outside_grammar body.
Proof.
  intros Hall [(cls & Hin & Hno) | [(m & Hm & Hbad) | (m & id & Hm & Hbad)]].
  - apply Hno. apply elem_of_cons in Hin as [-> | Hin].
    + apply (bool_decide_unpack _). by vm_compute.
    + pose proof (good_kinds body Hall) as Hk.
      rewrite Forall_forall in Hk. by apply Hk.
  - rewrite Forall_forall in Hall. by destruct (Hall m Hm) as (_ & Hcall & _).
  - rewrite Forall_forall in Hall.
    destruct (Hall m Hm) as (_ & _ & Hname). by apply (Hname id).
Qed.

Lemma offence_names_offender (body : node) (e : exn) :
  Exists (offence e) (subnodes body) ->
  names_offender body e /\ exists msg, e = InvalidPayoffError msg.
Proof.
  intros Hex. apply Exists_exists in Hex as (m & Hm & Hoff).
  destruct Hoff as [(cls & Hcls & Hno & ->) | [[Hbad ->] | (id & Hbad & ->)]].
  - split; [|unfold unsafe_component; eauto]. left. exists cls.
    split; [|auto]. apply list_elem_of_further.
    by apply (own_kinds_in_kinds body m).
  - split; [|eauto]. right. left. eauto.
  - split; [|unfold unknown_identifier; eauto]. right. right. eauto.
Qed.

(** The validator's verdict does not look at literals. *)
Lemma visit_replace_constants (f : constant -> constant) (n : node) :
  visit (replace_constants f n) = visit n.
Proof.
  assert (Heach : forall ns,
             Forall (fun n => visit (replace_constants f n) = visit n) ns ->
             each visit (map (replace_constants f) ns) = each visit ns).
  { induction 1 as [|m ns Hm _ IH]; simpl; [reflexivity|].
    by rewrite Hm, IH. }
  induction n using node_induction; simpl;
    rewrite ?Heach by assumption;
    repeat match goal with
           | IH : visit (replace_constants f _) = _ |- _ => rewrite IH; clear IH
           end;
    try reflexivity.
  replace (allowed_callee (replace_constants f n)) with (allowed_callee n)
    by (by destruct n).
  reflexivity.
Qed.

End SandboxTheory.

Module SandboxClaims.
Import Sandbox SandboxTheory.

Section Claims.
Context {F : Type} `{Interpreter F}.


(** C2 (the code at the failing input): a call of a qualified member of
    the math namespace, such as [math.exp(S)], does not compile:
    [build_payoff_function] raises [InvalidPayoffError] because the callee
    is an attribute and not a bare name. *)
Theorem math_member_call_rejected (expression member : string)
    (ctx_name ctx_attr : expr_context) (args keywords : list node) :
  ast_parse expression
  = Ok (Expression (Call (Attribute (Name "math" ctx_name) member ctx_attr)
                         args keywords)) ->
  build_payoff_function expression = Raise (InvalidPayoffError call_message).
Proof.
  intros Hparse. unfold build_payoff_function.
  rewrite Hparse, visit_module_eq. reflexivity.
Qed.

End Claims.

(** C3 (amended): a literal never makes compilation fail.  Every literal,
    numeric or not, is a [Constant] node, which the validator accepts, and
    the verdict on an expression is the same whatever literals it holds. *)
Theorem literals_never_rejected (f : constant -> constant) (body : node)
    (c : constant) :
  visit_module (Expression (replace_constants f body))
  = visit_module (Expression body)
  /\ visit_module (Expression (Constant c)) = Ok tt.
Proof.
  rewrite !visit_module_eq. split; [apply visit_replace_constants|].
  reflexivity.
Qed.

End SandboxClaims.


(** ** The real-number model *)

Module RealFacts.
Import RealModel TableInterpreter.

Local Open Scope R_scope.

Lemma Rleb_true (a b : R) : a <= b -> Rleb a b = true.
Proof. intros Hab. unfold Rleb. destruct (Rle_dec a b); [reflexivity | contradiction]. Qed.

Lemma Rleb_false (a b : R) : b < a -> Rleb a b = false.
Proof. intros Hab. unfold Rleb. destruct (Rle_dec a b); [lra | reflexivity]. Qed.

Lemma Rleb_le (a b : R) : Rleb a b = true -> a <= b.
Proof. unfold Rleb. destruct (Rle_dec a b); [auto | discriminate]. Qed.

Lemma Rgtb_gt (a b : R) : Rgtb a b = true -> a > b.
Proof. unfold Rgtb. destruct (Rgt_dec a b); [auto | discriminate]. Qed.

Lemma Reqb_false (a b : R) : a <> b -> Reqb a b = false.
Proof. intros Hab. unfold Reqb. destruct (Req_dec_T a b); [contradiction | reflexivity]. Qed.

Lemma Reqb_true (a : R) : Reqb a a = true.
Proof. unfold Reqb. destruct (Req_dec_T a a); [reflexivity | contradiction]. Qed.

(** The reals satisfy the order laws. *)
Lemma real_ordered : OrderedFloat R.
Proof.
  split; simpl.
  - intros x. apply Rleb_true. lra.
  - intros x y z Hxy Hyz. apply Rleb_le in Hxy, Hyz. apply Rleb_true. lra.
  - intros x y Hxy. apply Rgtb_gt in Hxy. apply Rleb_true. lra.
  - intros a a' b b' Ha Hb. apply Rleb_le in Ha, Hb. apply Rleb_true. lra.
  - intros c a a' Hc Ha. apply Rleb_le in Hc, Ha. apply Rleb_true. nra.
  - intros p Hp. apply Rleb_le in Hp. apply Rleb_true. lra.
  - intros x y [= <-]. apply Rleb_true. left. apply exp_pos.
Qed.

#[export] Existing Instance real_ordered.

Lemma truediv_real (a b : R) : b <> 0 -> truediv a b = Ok (a / b).
Proof. intros Hb. unfold truediv. simpl. by rewrite Reqb_false. Qed.

Lemma real_sqrt_Ok (x : R) : 0 <= x -> real_sqrt x = Ok (sqrt x).
Proof. intros Hx. unfold real_sqrt. destruct (Rlt_dec x 0); [lra | reflexivity]. Qed.

Lemma exp_gt_one (x : R) : 0 < x -> 1 < exp x.
Proof. intros Hx. assert (Hne : x <> 0) by lra. pose proof (exp_ineq1 x Hne). lra. Qed.

Import Binomial.

(** With positive maturity, volatility and step count the derived
    quantities exist in the real model and are [real_factors]. *)
Lemma derive_factors_real (params : BinomialParameters R) :
  0 < maturity params -> 0 < volatility params -> (0 < steps params)%Z ->
  derive_factors params = Ok (real_factors params).
Proof.
  intros Hm Hv Hn. unfold derive_factors, real_factors. simpl.
  assert (Hsteps : 0 < IZR (steps params)) by (by apply IZR_lt).
  rewrite truediv_real by lra. simpl.
  assert (Hdt : 0 < maturity params / IZR (steps params))
    by (by apply Rdiv_lt_0_compat).
  rewrite real_sqrt_Ok by lra. simpl.
  pose proof (sqrt_lt_R0 _ Hdt) as Hroot.
  assert (Hup : 1 < exp (volatility params
                         * sqrt (maturity params / IZR (steps params)))).
  { apply exp_gt_one. by apply Rmult_lt_0_compat. }
  rewrite truediv_real by lra. simpl.
  rewrite truediv_real; [reflexivity|].
  set (u := exp _) in *.
  assert (1 / u < 1); [|lra].
  apply Rmult_lt_reg_r with u; [lra|]. field_simplify; lra.
Qed.


Lemma real_probability_in_range (params : BinomialParameters R) :
  0 < maturity params -> 0 < volatility params -> (0 < steps params)%Z ->
  rate params = dividend_yield params ->
  probability_in_range (probability (real_factors params)) = true.
Proof.
  intros Hm Hv Hn Hr. unfold probability_in_range, real_factors. simpl.
  rewrite Hr.
  replace ((dividend_yield params - dividend_yield params)
           * (maturity params / IZR (steps params))) with 0 by ring.
  rewrite exp_0.
  assert (Hsteps : 0 < IZR (steps params)) by (by apply IZR_lt).
  assert (Hdt : 0 < maturity params / IZR (steps params))
    by (by apply Rdiv_lt_0_compat).
  pose proof (sqrt_lt_R0 _ Hdt) as Hroot.
  assert (Hup : 1 < exp (volatility params
                         * sqrt (maturity params / IZR (steps params)))).
  { apply exp_gt_one. by apply Rmult_lt_0_compat. }
  set (u := exp _) in *.
  assert (Hdown : 0 < 1 / u < 1).
  { split; [apply Rdiv_lt_0_compat; lra|].
    apply Rmult_lt_reg_r with u; [lra|]. field_simplify; lra. }
  apply andb_true_intro. split; apply Rleb_true.
  - apply Rmult_le_pos; [lra|]. left. apply Rinv_0_lt_compat. lra.
  - apply Rmult_le_reg_r with (u - 1 / u); [lra|].
    unfold Rdiv at 1. rewrite Rmult_assoc, Rinv_l by lra. lra.
Qed.

Lemma sample_validated (flag : bool) :
  _validate_parameters (with_american flag sample) = Ok tt.
Proof.
  unfold _validate_parameters. simpl.
  rewrite !Rleb_false by lra. reflexivity.
Qed.

Lemma real_pow_defined (x : R) (k : Z) :
  (0 <= k)%Z -> exists y, float_pow x k = Ok y.
Proof.
  intros Hk. simpl. unfold real_pow.
  destruct (Z.ltb_spec k 0); [lia|]. simpl. eauto.
Qed.

Lemma sample_factors (flag : bool) :
  derive_factors (with_american flag sample)
  = Ok (real_factors (with_american flag sample)).
Proof. apply derive_factors_real; simpl; lra || lia. Qed.

Lemma sample_in_range (flag : bool) :
  probability_in_range
    (probability (real_factors (with_american flag sample))) = true.
Proof.
  apply real_probability_in_range; simpl; lra || lia || reflexivity.
Qed.

(** The sample is priced, under either exercise style. *)
Lemma sample_price (flag : bool) :
  exists v, price_option (with_american flag sample) = Ok v.
Proof.
  eapply LatticeTotality.price_option_total.
  - apply real_pow_defined.
  - apply sample_validated.
  - apply sample_factors.
  - apply sample_in_range.
Qed.

Lemma steep_out_of_range :
  probability_in_range (probability (real_factors steep)) = false.
Proof.
  unfold probability_in_range, real_factors. simpl.
  replace (1 / 1) with 1 by lra. rewrite sqrt_1.
  replace ((1 - 0) * 1) with 1 by lra. replace (/ 2 * 1) with (/ 2) by lra.
  assert (Hup : 1 < exp (/ 2)) by (apply exp_gt_one; lra).
  assert (Hgrowth : exp (/ 2) < exp 1) by (apply exp_increasing; lra).
  set (u := exp (/ 2)) in *. set (g := exp 1) in *.
  assert (Hdown : 0 < 1 / u < 1).
  { split; [apply Rdiv_lt_0_compat; lra|].
    apply Rmult_lt_reg_r with u; [lra|]. field_simplify; lra. }
  rewrite (Rleb_false _ 1); [apply andb_false_r|].
  apply Rmult_lt_reg_r with (u - 1 / u); [lra|].
  unfold Rdiv at 2. rewrite Rmult_assoc, Rinv_l by lra. lra.
Qed.

Import MonteCarlo.

Lemma mc_sample_validated :
  _validate_monte_carlo_parameters mc_sample = Ok tt.
Proof.
  unfold _validate_monte_carlo_parameters. simpl.
  rewrite !Rleb_false by lra. reflexivity.
Qed.

Lemma mc_sample_coefficients :
  coefficients mc_sample
  = Ok ((0 - / 2 * powerRZ 1 2) * 1, 1 * sqrt 1).
Proof.
  unfold coefficients. simpl. unfold real_pow. simpl.
  rewrite real_sqrt_Ok by lra. reflexivity.
Qed.

Import Sandbox.

Lemma scope_price (price : R) : payoff_scope price !! "S" = Some (Price price).
Proof.
  unfold payoff_scope. apply lookup_union_Some_l. apply lookup_insert_eq.
Qed.

Lemma zero_division_payoff_raises (price : R) :
  zero_division_payoff price = Raise ZeroDivisionError.
Proof.
  unfold zero_division_payoff. cbn [eval_float table_interpreter].
  cbn [eval_arithmetic]. rewrite scope_price.
  cbn [bind float_of_int real_float f_sub].
  unfold truediv. cbn [f_eqb f_zero real_float].
  replace (price - price) with 0 by lra. by rewrite Reqb_true.
Qed.

Lemma build_zero_division_payoff :
  build_payoff_function "1 / (S - S)" = Ok zero_division_payoff.
Proof. reflexivity. Qed.

(** [max(S - 100, 0)] compiles, and it pays 20 at 120 and 0 at 80. *)
Example vanilla_call_compiles :
  exists payoff,
    build_payoff_function "max(S - 100, 0)" = Ok payoff
    /\ payoff 120 = Ok 20
    /\ payoff 80 = Ok 0.
Proof.
  eexists. split; [reflexivity|].
  assert (Hmax : forall price : R,
             payoff_scope price !! "max" = Some (Allowed builtin_max)).
  { intros price. unfold payoff_scope. apply lookup_union_Some_raw. right.
    split; [reflexivity|]. reflexivity. }
  split; cbn [eval_float table_interpreter eval_arithmetic];
    rewrite Hmax, scope_price;
    cbn [bind float_of_int real_float f_sub]; unfold py_max;
    cbn [f_gtb real_float]; unfold Rgtb.
  - destruct (Rgt_dec (IZR 0) (120 - IZR 100)); [lra|]. f_equal. lra.
  - destruct (Rgt_dec (IZR 0) (80 - IZR 100)); [reflexivity | lra].
Qed.

End RealFacts.

(** ** The theorems on concrete inputs *)

Module Instances.
Import RealModel RealFacts TableInterpreter.

Local Open Scope R_scope.

Section Lattice.
Import Binomial BinomialClaims.

(** The two-step put is validated, is priced, and its price is the lattice
    value. *)
Lemma price_option_is_lattice_value_witness :
  _validate_parameters sample = Ok tt
  /\ price_option sample = spec_lattice_value sample (real_factors sample)
  /\ exists v, price_option sample = Ok v.
Proof.
  split; [exact (sample_validated false)|]. split.
  - apply price_option_is_lattice_value.
    + exact (sample_validated false).
    + exact (sample_factors false).
    + exact (sample_in_range false).
  - exact (sample_price false).
Defined.

(** With a 100% rate and 50% volatility on one step the derived probability
    exceeds one and pricing is refused. *)
Lemma price_option_rejects_witness :
  exists msg,
    price_option steep = Raise (InvalidParameterError msg)
    /\ (_validate_parameters steep = Raise (InvalidParameterError msg)
        \/ (_validate_parameters steep = Ok tt
            /\ exists fac, derive_factors steep = Ok fac
                 /\ probability_in_range (probability fac) = false)).
Proof.
  apply price_option_rejects.
  do 6 right. exists (real_factors steep). split.
  - apply derive_factors_real; simpl; lra || lia.
  - exact steep_out_of_range.
Defined.


End Lattice.

Section Engine.
Import MonteCarlo MonteCarloClaims.

(** Three paths from seed 7: the variates are -1, +1, -1. *)
Lemma price_option_monte_carlo_estimate_witness :
  price_option_monte_carlo mc_sample call_payoff 0
  = spec_estimate mc_sample call_payoff [0 - 1; 0 + 1; 0 - 1].
Proof.
  exact (proj1 (price_option_monte_carlo_estimate mc_sample call_payoff 0%Z
                  mc_sample_validated)).
Defined.

(** Seed 7 under two different entropies. *)
Lemma seeded_runs_agree_witness :
  price_option_monte_carlo mc_sample call_payoff 1
  = price_option_monte_carlo mc_sample call_payoff 2.
Proof.
  exact (proj1 (seeded_runs_agree mc_sample call_payoff 7 1 2 eq_refl)).
Defined.

(** [1 / (S - S)] divides by zero on the first path. *)
Lemma payoff_error_propagates_witness :
  price_option_monte_carlo mc_sample zero_division_payoff 0
  = Raise ZeroDivisionError.
Proof.
  refine (proj2 (payoff_error_propagates mc_sample zero_division_payoff 0%Z
                   _ _ 0%nat (0 - 1) _ ZeroDivisionError
                   mc_sample_validated mc_sample_coefficients
                   eq_refl eq_refl (zero_division_payoff_raises _)) _).
  intros j z' Hj. lia.
Defined.

End Engine.

Section Payoffs.
Import Sandbox SandboxTheory SandboxClaims.


(** [math.exp(S)] is refused. *)
Lemma math_member_call_rejected_witness :
  build_payoff_function "math.exp(S)"
  = Raise (InvalidPayoffError call_message).
Proof.
  apply (math_member_call_rejected "math.exp(S)" "exp" Load Load
           [Name "S" Load] []).
  reflexivity.
Defined.

(** C3 (as stated) fails: the string literal ['abc'] is not a number, and
    [build_payoff_function] returns a payoff function for it instead of
    raising. *)
Lemma string_literal_compiles : ~ non_numeric_literals_rejected.
Proof.
  intros Hclaim.
  destruct (Hclaim R table_interpreter "'abc'" (Constant (CStr "abc")))
    as [msg Hmsg].
  - reflexivity.
  - exists (CStr "abc"). split; [apply list_elem_of_here | reflexivity].
  - discriminate Hmsg.
Qed.

End Payoffs.
End Instances.

(** ** The definitions run on examples *)

Module RationalExamples.
Import RationalModel TableInterpreter.

Local Open Scope Q_scope.

Section Lattice.
Import Binomial.

(** The three-step prices of the textbook option: 11.0438 for the call
    under either exercise style, 6.1668 for the European put and 6.4995 for
    the American put. *)
Example textbook_european_call :
  basis_points (price_option (textbook "call" false)) = Ok 110438%Z.
Proof. vm_compute. reflexivity. Qed.

Example textbook_american_call :
  basis_points (price_option (textbook "call" true)) = Ok 110438%Z.
Proof. vm_compute. reflexivity. Qed.

Example textbook_european_put :
  basis_points (price_option (textbook "put" false)) = Ok 61668%Z.
Proof. vm_compute. reflexivity. Qed.

Example textbook_american_put :
  basis_points (price_option (textbook "put" true)) = Ok 64995%Z.
Proof. vm_compute. reflexivity. Qed.

Example textbook_simplified :
  basis_points
    (price_option_simplified 100 100 1 (5 # 100) (2 # 10) 3 None None None)
  = Ok 110438%Z.
Proof. vm_compute. reflexivity. Qed.

Example unknown_kind_rejected :
  price_option (textbook "straddle" false)
  = Raise (InvalidParameterError
             "Option type must be either 'call' or 'put'.").
Proof. vm_compute. reflexivity. Qed.

Example zero_steps_rejected :
  price_option_simplified 100 100 1 (5 # 100) (2 # 10) 0 None None None
  = Raise (InvalidParameterError "Steps must be a positive integer.").
Proof. vm_compute. reflexivity. Qed.

End Lattice.

Section Sandbox.
Import Sandbox.

Example vanilla_call_runs :
  run "max(S - 100, 0)" 120 = Ok 20 /\ run "max(S - 100, 0)" 80 = Ok 0.
Proof. split; vm_compute; reflexivity. Qed.

Example matrix_product_rejected :
  run "S @ 2" 120
  = Raise (InvalidPayoffError "Unsafe expression component: MatMult.").
Proof. vm_compute. reflexivity. Qed.

Example unknown_identifier_rejected :
  run "price - 100" 120
  = Raise (InvalidPayoffError "Unknown identifier 'price'. Use 'S' for price.").
Proof. vm_compute. reflexivity. Qed.

Example math_call_rejected :
  run "math.exp(S)" 120
  = Raise (InvalidPayoffError
             "Only simple function calls like max/min/abs are allowed.").
Proof. vm_compute. reflexivity. Qed.

Example zero_division_raised : run "1 / (S - S)" 120 = Raise ZeroDivisionError.
Proof. vm_compute. reflexivity. Qed.

End Sandbox.

Section Engine.
Import MonteCarlo.

(** Two paths end at 125.86 and two at 84.37; the discounted mean payoff of
    the call is 12.2993. *)
Example four_paths_price :
  basis_points (price_option_monte_carlo four_paths vanilla_call 0) = Ok 122993%Z.
Proof. vm_compute. reflexivity. Qed.

Example four_paths_zero_division :
  price_option_monte_carlo four_paths zero_division_payoff 0
  = Raise ZeroDivisionError.
Proof. vm_compute. reflexivity. Qed.

End Engine.
End RationalExamples.

(** * Further properties *)

(** ** The validator and the grammar *)

Module GrammarTheory.
Import Sandbox SandboxTheory Grammar.

Lemma is_ok_bind (m k : result unit) : is_ok (m ;;; k) = is_ok m && is_ok k.
Proof. by destruct m. Qed.

Lemma is_ok_each {A : Type} (f : A -> result unit) (g : A -> bool)
    (xs : list A) :
  Forall (fun x => is_ok (f x) = g x) xs ->
  is_ok (each f xs) = forallb g xs.
Proof.
  induction 1 as [|x xs Hx _ IH]; simpl; [reflexivity|].
  by rewrite is_ok_bind, Hx, IH.
Qed.

Lemma is_ok_each_map {A B : Type} (f : B -> result unit) (h : A -> B)
    (g : A -> bool) (xs : list A) :
  (forall x, is_ok (f (h x)) = g x) ->
  is_ok (each f (map h xs)) = forallb g xs.
Proof.
  intros Hfg. induction xs as [|x xs IH]; simpl; [reflexivity|].
  by rewrite is_ok_bind, Hfg, IH.
Qed.

Lemma operator_allowed (op : operator) :
  is_ok (check_allowed (operator_name op)) = allowed_operator op.
Proof. destruct op; vm_compute; reflexivity. Qed.

Lemma unaryop_allowed (op : unaryop) :
  is_ok (check_allowed (unaryop_name op)) = allowed_unaryop op.
Proof. destruct op; vm_compute; reflexivity. Qed.

Lemma cmpop_allowed (op : cmpop) :
  is_ok (check_allowed (cmpop_name op)) = allowed_cmpop op.
Proof. destruct op; vm_compute; reflexivity. Qed.

(** Decide the kind test of a node class that is written out. *)
Ltac own_class :=
  match goal with
  | |- context [is_ok (check_allowed ?cls)] =>
      let b := eval vm_compute in (is_ok (check_allowed cls)) in
      change (is_ok (check_allowed cls)) with b; cbn [andb]
  end.

Lemma accepts_in_grammar (n : node) : accepts n = in_grammar n.
Proof.
  unfold accepts.
  induction n using node_induction; rewrite visit_eq, is_ok_bind;
    cbn [class_name in_grammar]; try own_class.
  - rewrite !is_ok_bind, IHn1, IHn2, operator_allowed.
    by rewrite andb_assoc.
  - by rewrite is_ok_bind, IHn, unaryop_allowed.
  - reflexivity.
  - rewrite !is_ok_bind, IHn1, IHn2, IHn3. by rewrite andb_assoc.
  - rewrite !is_ok_bind, IHn.
    rewrite (is_ok_each_map check_allowed cmpop_name allowed_cmpop)
      by apply cmpop_allowed.
    rewrite (is_ok_each visit in_grammar) by assumption.
    by rewrite andb_assoc.
  - destruct n as [| | | | | | | |id ctx|]; try reflexivity.
    cbn [allowed_callee]. destruct (allowed_name id) eqn:Hid;
      [|reflexivity].
    cbn [negb]. rewrite !is_ok_bind, IHn.
    rewrite !(is_ok_each visit in_grammar) by assumption.
    cbn [in_grammar]. rewrite Hid. reflexivity.
  - reflexivity.
  - reflexivity.
  - simpl. by destruct (allowed_name id), (String.eqb id "S").
  - destruct cls; try own_class; reflexivity.
Qed.

Lemma in_grammar_subnodes (n : node) :
  in_grammar n = true ->
  Forall (fun m => in_grammar m = true) (subnodes n).
Proof.
  assert (Hall : forall ns,
             Forall (fun n => in_grammar n = true ->
                       Forall (fun m => in_grammar m = true) (subnodes n)) ns ->
             forallb in_grammar ns = true ->
             Forall (fun m => in_grammar m = true) (concat (map subnodes ns))).
  { intros ns IH Hns. apply Forall_subnodes.
    rewrite forallb_forall in Hns. rewrite Forall_forall in *.
    intros m Hm. apply IH; [exact Hm|]. apply Hns. by apply list_elem_of_In. }
  induction n using node_induction; intros Hn;
    (apply Forall_cons_2; [exact Hn|]); cbn [in_grammar] in Hn;
    try discriminate; cbn [subnodes].
  - apply andb_prop in Hn as [Hn Hr]. apply andb_prop in Hn as [Hl _].
    apply Forall_app; auto.
  - apply andb_prop in Hn as [_ Hn]. auto.
  - apply andb_prop in Hn as [Hn Ho]. apply andb_prop in Hn as [Ht Hb].
    repeat (apply Forall_app; split); auto.
  - apply andb_prop in Hn as [Hn Hc]. apply andb_prop in Hn as [Hl _].
    apply Forall_app; auto.
  - destruct n as [| | | | | | | |id ctx|]; try discriminate.
    apply andb_prop in Hn as [Hn Hk]. apply andb_prop in Hn as [Hid Ha].
    repeat (apply Forall_app; split); auto.
    apply IHn. cbn [in_grammar]. by rewrite Hid.
  - apply Forall_nil_2.
  - apply Forall_nil_2.
Qed.

Section Scope.
Context {F : Type}.

(** The names the evaluation scope binds are [S] and the allow-listed
    names. *)
Lemma payoff_scope_bound (price : F) (id : string) :
  is_Some (payoff_scope price !! id)
  <-> allowed_name id = true \/ id = "S".
Proof.
  unfold payoff_scope, allowed_name.
  destruct (decide (id = "S")) as [->|Hid].
  - split; [auto|]. intros _. exists (Price price).
    apply lookup_union_Some_l, lookup_insert_eq.
  - rewrite lookup_union_r by (by rewrite lookup_insert_ne).
    rewrite lookup_fmap, fmap_is_Some. rewrite bool_decide_eq_true.
    tauto.
Qed.

End Scope.

End GrammarTheory.

Module GrammarOutcome.
Import Sandbox SandboxTheory Grammar GrammarTheory.

Section Outcome.
Context {F : Type} `{Interpreter F}.

Lemma build_outcome (expression : string) (body : node) :
  ast_parse expression = Ok (Expression body) ->
  if in_grammar body then
    build_payoff_function expression
    = Ok (fun price => eval_float (Expression body) (payoff_scope price))
  else
    exists msg,
      build_payoff_function expression = Raise (InvalidPayoffError msg).
Proof.
  intros Hparse. unfold build_payoff_function.
  rewrite Hparse, visit_module_eq.
  rewrite <- accepts_in_grammar. unfold accepts.
  destruct (visit body) as [[]|e] eqn:Hvisit; simpl; [reflexivity|].
  apply rejected_offence, offence_names_offender in Hvisit
    as [_ [msg ->]].
  eauto.
Qed.

End Outcome.
End GrammarOutcome.

Module GrammarProperties.
Import Sandbox SandboxTheory Grammar GrammarTheory GrammarOutcome.

Section Properties.
Context {F : Type} `{Interpreter F}.

(** X1: once an expression parses, [build_payoff_function] returns a payoff
    function exactly when the tree is in the grammar of [in_grammar], and
    the function it returns evaluates that tree with the price bound to
    [S]; for every other tree it raises [InvalidPayoffError]. *)
Theorem compiles_exactly_the_grammar (expression : string) (body : node) :
  ast_parse expression = Ok (Expression body) ->
  if in_grammar body then
    build_payoff_function expression
    = Ok (fun price => eval_float (Expression body) (payoff_scope price))
  else
    exists msg,
      build_payoff_function expression = Raise (InvalidPayoffError msg).
Proof. apply build_outcome. Qed.

(** X2: every identifier of an expression in the grammar is bound in the
    scope the payoff is evaluated in, and that scope binds nothing but [S]
    and the allow-listed names. *)
Theorem grammar_identifiers_are_bound (body : node) (price : F)
    (id : string) (ctx : expr_context) :
  in_grammar body = true ->
  Name id ctx ∈ subnodes body ->
  is_Some (payoff_scope price !! id)
  /\ forall other : string,
       is_Some (payoff_scope price !! other) ->
       other ∈ ["S"; "max"; "min"; "abs"; "math"].
Proof.
  intros Hbody Hin. split.
  - apply in_grammar_subnodes in Hbody. rewrite Forall_forall in Hbody.
    specialize (Hbody _ Hin). cbn [in_grammar] in Hbody.
    apply payoff_scope_bound. apply orb_prop in Hbody as [Ha | Hs]; [auto|].
    right. by apply String.eqb_eq.
  - intros other Hother. apply payoff_scope_bound in Hother as [Ha | ->];
      [|set_solver].
    unfold allowed_name in Ha. apply bool_decide_eq_true in Ha.
    unfold _ALLOWED_NAMES in Ha.
    repeat (apply lookup_insert_is_Some in Ha as [<- | [_ Ha]];
            [set_solver|]).
    rewrite lookup_empty in Ha. by destruct Ha.
Qed.

End Properties.
End GrammarProperties.

(** ** The Monte Carlo engine: validation and bounds *)

Module EngineProperties.
Import MonteCarlo MonteCarloTheory EngineInputs.

Section Validation.
Context {F : Type} `{PyFloat F} `{RandomSource F}.

Lemma mc_validated_inv (params : MonteCarloParameters F) :
  _validate_monte_carlo_parameters params = Ok tt ->
  (spot params <=? f_zero)%fl = false
  /\ (maturity params <=? f_zero)%fl = false
  /\ (volatility params <=? f_zero)%fl = false
  /\ (0 < simulations params)%Z.
Proof.
  unfold _validate_monte_carlo_parameters.
  destruct (spot params <=? f_zero)%fl; [discriminate|].
  destruct (maturity params <=? f_zero)%fl; [discriminate|].
  destruct (volatility params <=? f_zero)%fl; [discriminate|].
  destruct (Z.leb_spec (simulations params) 0); [discriminate|].
  auto.
Qed.

Lemma mc_validate_outcome (params : MonteCarloParameters F) :
  _validate_monte_carlo_parameters params = Ok tt
  \/ exists msg,
       _validate_monte_carlo_parameters params
       = Raise (InvalidMonteCarloParameterError msg).
Proof.
  unfold _validate_monte_carlo_parameters.
  repeat (match goal with
          | |- context [if ?b then _ else _] => destruct b
          end; [right; eexists; reflexivity|]).
  by left.
Qed.

(** X3: a non-positive spot, maturity, volatility or simulation count makes
    [price_option_monte_carlo] raise [InvalidMonteCarloParameterError], with
    a message that depends on the parameters alone: neither the payoff nor
    the random source is consulted. *)
Theorem monte_carlo_rejects (params : MonteCarloParameters F) :
  rejected_input params ->
  exists msg,
    forall (payoff : F -> result F) (entropy : Z),
      price_option_monte_carlo params payoff entropy
      = Raise (InvalidMonteCarloParameterError msg).
Proof.
  intros Hrej.
  destruct (mc_validate_outcome params) as [Hok | [msg Herr]].
  - apply mc_validated_inv in Hok as (Hs & Hm & Hv & Hn).
    destruct Hrej as [Hr|[Hr|[Hr|Hr]]]; congruence || lia.
  - exists msg. intros payoff entropy. unfold price_option_monte_carlo.
    by rewrite Herr.
Qed.

End Validation.
End EngineProperties.

Module RealEngine.
Import RealModel RealFacts MonteCarlo MonteCarloTheory EngineProperties.

Local Open Scope R_scope.

Lemma fold_left_Rplus_bounds (a b : R) (ys : list R) (total : R) :
  Forall (fun y => a <= y <= b) ys ->
  total + INR (length ys) * a <= fold_left Rplus ys total
  <= total + INR (length ys) * b.
Proof.
  intros Hall. revert total.
  induction Hall as [|y ys Hy _ IH]; intros total.
  - simpl. lra.
  - cbn [fold_left]. specialize (IH (total + y)).
    change (length (y :: ys)) with (S (length ys)). rewrite S_INR. lra.
Qed.

Lemma mapM_bounded {A : Type} (f : A -> result R) (a b : R) (xs : list A) :
  (forall x, exists v, f x = Ok v /\ a <= v <= b) ->
  exists ys, mapM f xs = Ok ys
             /\ length ys = length xs
             /\ Forall (fun y => a <= y <= b) ys.
Proof.
  intros Hf. induction xs as [|x xs (ys & Hys & Hlen & Hall)]; simpl.
  - exists []. auto.
  - destruct (Hf x) as (v & Hv & Hb). rewrite Hv, Hys. simpl.
    exists (v :: ys). simpl. auto.
Qed.

Section Bounds.
Context {source : RandomSource R}.


End Bounds.
End RealEngine.

(** ** The lattice: signs and early exercise *)

Lemma mapM_Forall {A B : Type} (P : B -> Prop) (f : A -> result B)
    (xs : list A) (ys : list B) :
  (forall x y, x ∈ xs -> f x = Ok y -> P y) ->
  mapM f xs = Ok ys -> Forall P ys.
Proof.
  revert ys. induction xs as [|x xs IH]; intros ys Hf; simpl.
  - intros [= <-]. constructor.
  - intros Hm. apply bind_Ok_inv in Hm as (y & Hy & Hm).
    apply bind_Ok_inv in Hm as (ys' & Hys & [= <-]).
    constructor.
    + apply (Hf x); [apply list_elem_of_here | exact Hy].
    + apply IH; [|exact Hys].
      intros z w Hz. apply Hf. by apply list_elem_of_further.
Qed.

Lemma foldM_app {A B : Type} (f : A -> B -> result A) (a : A)
    (xs ys : list B) :
  foldM f a (xs ++ ys) = (a' <- foldM f a xs ;; foldM f a' ys).
Proof.
  revert a. induction xs as [|x xs IH]; intros a; simpl; [reflexivity|].
  destruct (f a x); simpl; [apply IH | reflexivity].
Qed.

Lemma getitem_elem_of {A : Type} (xs : list A) (i : nat) (v : A) :
  getitem xs i = Ok v -> v ∈ xs.
Proof.
  unfold getitem. destruct (xs !! i) as [w|] eqn:Hw; [|discriminate].
  intros [= <-]. by eapply list_elem_of_lookup_2.
Qed.

Module LatticeSigns.
Import Binomial BinomialTheory ExerciseOrder.

Section Signs.
Context {F : Type} `{SignedFloat F}.
Variable params : BinomialParameters F.
Variable fac : factors F.

Hypothesis probability_nonneg : fle f_zero (probability fac).
Hypothesis probability_le_one : fle (probability fac) f_one.
Hypothesis discount_nonneg : fle f_zero (discount fac).

Lemma py_max_ge_second (a b : F) : fle b (py_max a b).
Proof.
  unfold py_max, fle. destruct (b >? a)%fl eqn:Hgt.
  - apply leb_refl.
  - by apply gtb_total.
Qed.

Lemma exercise_value_nonneg (price : F) :
  fle f_zero (spec_exercise_value params price).
Proof.
  unfold spec_exercise_value.
  destruct (String.eqb _ _); apply py_max_ge_second.
Qed.

Lemma continuation_nonneg (v_up v_down : F) :
  fle f_zero v_up -> fle f_zero v_down ->
  fle f_zero (discount fac * (probability fac * v_up
                              + (f_one - probability fac) * v_down))%fl.
Proof.
  intros Hup Hdown. apply mul_nonneg; [exact discount_nonneg|].
  apply add_nonneg; apply mul_nonneg; try assumption.
  by apply complement_nonneg.
Qed.

Lemma node_value_nonneg (step i : nat) (previous : list F) (v : F) :
  Forall (fle f_zero) previous ->
  spec_node_value params fac step previous i = Ok v ->
  fle f_zero v.
Proof.
  intros Hall. rewrite Forall_forall in Hall. unfold spec_node_value.
  intros Hv. apply bind_Ok_inv in Hv as (v_up & Hup & Hv).
  apply bind_Ok_inv in Hv as (v_down & Hdown & Hv).
  apply getitem_elem_of, Hall in Hup, Hdown.
  pose proof (continuation_nonneg v_up v_down Hup Hdown) as Hcont.
  destruct (american params).
  - apply bind_Ok_inv in Hv as (price & _ & [= <-]).
    eapply leb_trans; [exact Hcont | apply py_max_ge_first].
  - by injection Hv as <-.
Qed.

Lemma levels_nonneg (steps_left : list nat) (values root : list F) :
  Forall (fle f_zero) values ->
  foldM (spec_level params fac) values steps_left = Ok root ->
  Forall (fle f_zero) root.
Proof.
  revert values. induction steps_left as [|step rest IH]; intros values Hall.
  - simpl. by intros [= <-].
  - simpl. intros Hfold. apply bind_Ok_inv in Hfold as (next & Hnext & Hfold).
    apply (IH next); [|exact Hfold].
    unfold spec_level in Hnext.
    eapply mapM_Forall; [|exact Hnext].
    intros i v _. by apply node_value_nonneg.
Qed.

Lemma lattice_value_nonneg (v : F) :
  spec_lattice_value params fac = Ok v -> fle f_zero v.
Proof.
  unfold spec_lattice_value. intros Hv.
  apply bind_Ok_inv in Hv as (terminal & Hterm & Hv).
  apply bind_Ok_inv in Hv as (root & Hroot & Hv).
  assert (Hall : Forall (fle f_zero) root).
  { refine (levels_nonneg _ _ _ _ Hroot).
    unfold spec_terminal_values in Hterm.
    eapply mapM_Forall; [|exact Hterm].
    intros j y _ Hy. apply bind_Ok_inv in Hy as (price & _ & [= <-]).
    apply exercise_value_nonneg. }
  rewrite Forall_forall in Hall. by apply Hall, (getitem_elem_of _ 0).
Qed.

(** With early exercise the root holds at least the exercise value of the
    root's own underlying price. *)
Lemma lattice_value_ge_exercise (v : F) :
  american params = true -> (0 < steps params)%Z ->
  spec_lattice_value params fac = Ok v ->
  exists price,
    spec_underlying params fac 0 0 = Ok price
    /\ fle (spec_exercise_value params price) v.
Proof.
  intros Ham Hsteps. unfold spec_lattice_value. intros Hv.
  apply bind_Ok_inv in Hv as (terminal & _ & Hv).
  apply bind_Ok_inv in Hv as (root & Hroot & Hv).
  unfold range in Hroot.
  destruct (Z.to_nat (steps params)) as [|n] eqn:Hn; [lia|].
  change (seq 0 (S n)) with (0 :: seq 1 n) in Hroot.
  cbn [rev] in Hroot. rewrite foldM_app in Hroot.
  apply bind_Ok_inv in Hroot as (level1 & _ & Hroot).
  cbn [foldM] in Hroot. apply bind_Ok_inv in Hroot as (level0 & Hlevel & Hroot).
  injection Hroot as <-.
  unfold spec_level in Hlevel. rewrite range_succ in Hlevel.
  cbn [seq mapM] in Hlevel.
  apply bind_Ok_inv in Hlevel as (v0 & Hv0 & Hlevel).
  cbn [bind] in Hlevel. injection Hlevel as <-.
  cbn in Hv. injection Hv as <-.
  unfold spec_node_value in Hv0. rewrite Ham in Hv0.
  apply bind_Ok_inv in Hv0 as (v_up & _ & Hv0).
  apply bind_Ok_inv in Hv0 as (v_down & _ & Hv0).
  apply bind_Ok_inv in Hv0 as (price & Hprice & [= <-]).
  exists price. split; [exact Hprice | apply py_max_ge_second].
Qed.

End Signs.

Section Properties.
Context {F : Type} `{SignedFloat F}.



End Properties.
End LatticeSigns.

(** ** The lattice over the reals *)

Module RealLattice.
Import RealModel RealFacts Binomial BinomialTheory LatticeInputs ExerciseOrder.

Local Open Scope R_scope.

Lemma Rleb_gt (a b : R) : Rleb a b = false -> b < a.
Proof. unfold Rleb. destruct (Rle_dec a b); [discriminate | lra]. Qed.

Lemma Rgtb_le (a b : R) : Rgtb a b = false -> a <= b.
Proof. unfold Rgtb. destruct (Rgt_dec a b); [discriminate | lra]. Qed.

(** The reals satisfy the sign laws. *)
Lemma real_signed : SignedFloat R.
Proof.
  split; simpl.
  - intros x y Hxy. apply Rgtb_le in Hxy. by apply Rleb_true.
  - intros a b Ha Hb. apply Rleb_le in Ha, Hb. apply Rleb_true. lra.
  - intros a b Ha Hb. apply Rleb_le in Ha, Hb. apply Rleb_true.
    by apply Rmult_le_pos.
Qed.

#[export] Existing Instance real_signed.

Lemma exp_pow_nat (x : R) (n : nat) : exp x ^ n = exp (INR n * x).
Proof.
  induction n as [|n IH].
  - simpl. rewrite Rmult_0_l. by rewrite exp_0.
  - rewrite S_INR. simpl. rewrite IH, <- exp_plus. f_equal. lra.
Qed.

Lemma real_validated (params : BinomialParameters R) :
  _validate_parameters params = Ok tt ->
  0 < spot params /\ 0 < strike params /\ 0 < maturity params
  /\ 0 < volatility params /\ (0 < steps params)%Z
  /\ option_type params ∈ ["call"; "put"].
Proof.
  intros Hvalid.
  apply validated_inv in Hvalid as (Hs & Hk & Hm & Hv & Hn & Ho).
  simpl in Hs, Hk, Hm, Hv. apply Rleb_gt in Hs, Hk, Hm, Hv.
  repeat split; assumption.
Qed.

(** A validated input whose derived probability is in range is priced. *)
Lemma real_priced (params : BinomialParameters R) :
  _validate_parameters params = Ok tt ->
  probability_in_range (probability (real_factors params)) = true ->
  exists v, price_option params = Ok v.
Proof.
  intros Hvalid Hrange.
  pose proof (real_validated params Hvalid) as (_ & _ & Hm & Hv & Hn & _).
  pose proof (derive_factors_real params Hm Hv Hn) as Hfac.
  eapply LatticeTotality.price_option_total; eauto.
  apply real_pow_defined.
Qed.


Section Parity.
Variable params : BinomialParameters R.
Variable fac : factors R.
Variable growth : R.

Hypothesis growth_mean :
  probability fac * up fac + (1 - probability fac) * down fac = growth.
Hypothesis steps_nonneg : (0 <= steps params)%Z.

Let call := european "call" params.
Let put := european "put" params.
Let N := Z.to_nat (steps params).

(** The underlying at node [i] of level [m]. *)
Let underlying (m i : nat) : R :=
  spot params * up fac ^ i * down fac ^ (m - i).

(** Call minus put at node [i] of level [m]. *)
Let parity_at (m i : nat) (vc vp : R) : Prop :=
  vc - vp = underlying m i * (discount fac * growth) ^ (N - m)
            - strike params * discount fac ^ (N - m).

Let parity_on (m : nat) (calls puts : list R) : Prop :=
  forall i, (i <= m)%nat ->
    exists vc vp, calls !! i = Some vc /\ puts !! i = Some vp
                  /\ parity_at m i vc vp.

Lemma underlying_real (kind : string) (m i : nat) :
  (i <= m)%nat ->
  spec_underlying (european kind params) fac (Z.of_nat m) i
  = Ok (underlying m i).
Proof.
  intros Hi. unfold spec_underlying, underlying. simpl. unfold real_pow.
  destruct (Z.ltb_spec (Z.of_nat i) 0); [lia|].
  destruct (Z.ltb_spec (Z.of_nat m - Z.of_nat i) 0); [lia|].
  simpl.
  replace (Z.of_nat m - Z.of_nat i)%Z with (Z.of_nat (m - i)) by lia.
  by rewrite <- !pow_powerRZ.
Qed.

Lemma exercise_parity (s : R) :
  spec_exercise_value call s - spec_exercise_value put s = s - strike params.
Proof.
  unfold spec_exercise_value, py_max. simpl. unfold Rgtb.
  destruct (Rgt_dec 0 (s - strike params)),
           (Rgt_dec 0 (strike params - s)); lra.
Qed.

Lemma terminal_parity (calls puts : list R) :
  spec_terminal_values call fac = Ok calls ->
  spec_terminal_values put fac = Ok puts ->
  parity_on N calls puts.
Proof.
  unfold spec_terminal_values, range. intros Hc Hp i Hi.
  assert (Hseq : seq 0 (Z.to_nat (steps call + 1)) !! i = Some i).
  { apply lookup_seq. simpl. fold N. lia. }
  destruct (mapM_lookup _ _ _ i i Hc Hseq) as (vc & Hvc & Hfc).
  destruct (mapM_lookup _ _ _ i i Hp Hseq) as (vp & Hvp & Hfp).
  exists vc, vp. split; [exact Hvc|]. split; [exact Hvp|].
  change (steps call) with (steps params) in Hfc.
  change (steps put) with (steps params) in Hfp.
  replace (steps params) with (Z.of_nat N) in Hfc, Hfp by (unfold N; lia).
  unfold call in Hfc. unfold put in Hfp.
  rewrite underlying_real in Hfc, Hfp by exact Hi.
  cbn [bind] in Hfc, Hfp. injection Hfc as <-. injection Hfp as <-.
  unfold parity_at. rewrite Nat.sub_diag. simpl.
  pose proof (exercise_parity (underlying N i)) as Hex.
  unfold call, put in Hex. lra.
Qed.

Lemma european_node (kind : string) (m i : nat) (values : list R)
    (v_up v_down : R) :
  values !! (i + 1)%nat = Some v_up -> values !! i = Some v_down ->
  spec_node_value (european kind params) fac m values i
  = Ok (discount fac * (probability fac * v_up
                        + (1 - probability fac) * v_down)).
Proof.
  intros Hup Hdown. unfold spec_node_value, getitem.
  rewrite Hup, Hdown. reflexivity.
Qed.

Lemma level_parity (m : nat) (calls puts calls' puts' : list R) :
  (m < N)%nat ->
  parity_on (S m) calls puts ->
  spec_level call fac calls m = Ok calls' ->
  spec_level put fac puts m = Ok puts' ->
  parity_on m calls' puts'.
Proof.
  intros Hm Hinv. unfold spec_level. rewrite !range_succ.
  intros Hc Hp i Hi.
  assert (Hseq : seq 0 (S m) !! i = Some i)
    by (apply lookup_seq; split; [reflexivity | lia]).
  destruct (mapM_lookup _ _ _ i i Hc Hseq) as (vc & Hvc & Hfc).
  destruct (mapM_lookup _ _ _ i i Hp Hseq) as (vp & Hvp & Hfp).
  exists vc, vp. split; [exact Hvc|]. split; [exact Hvp|].
  destruct (Hinv (i + 1)%nat) as (c1 & p1 & Hc1 & Hp1 & Hpar1); [lia|].
  destruct (Hinv i) as (c0 & p0 & Hc0 & Hp0 & Hpar0); [lia|].
  unfold call in Hfc. unfold put in Hfp.
  rewrite (european_node "call" m i calls c1 c0 Hc1 Hc0) in Hfc.
  rewrite (european_node "put" m i puts p1 p0 Hp1 Hp0) in Hfp.
  injection Hfc as <-. injection Hfp as <-.
  unfold parity_at, underlying in *.
  replace (S m - (i + 1))%nat with (m - i)%nat in Hpar1 by lia.
  replace (S m - i)%nat with (S (m - i)) in Hpar0 by lia.
  replace (N - m)%nat with (S (N - S m)) by lia.
  rewrite Nat.add_1_r in Hpar1. simpl pow in *.
  set (k := (N - S m)%nat) in *.
  replace c1 with (p1 + (c1 - p1)) by lra.
  replace c0 with (p0 + (c0 - p0)) by lra.
  rewrite Hpar1, Hpar0, <- growth_mean. ring.
Qed.

Lemma levels_parity (m : nat) (calls puts roots_c roots_p : list R) :
  (m <= N)%nat ->
  parity_on m calls puts ->
  foldM (spec_level call fac) calls (rev (seq 0 m)) = Ok roots_c ->
  foldM (spec_level put fac) puts (rev (seq 0 m)) = Ok roots_p ->
  parity_on 0 roots_c roots_p.
Proof.
  revert calls puts. induction m as [|m IH]; intros calls puts Hm Hinv.
  - simpl. by intros [= <-] [= <-].
  - rewrite seq_S, rev_app_distr. simpl. intros Hc Hp.
    apply bind_Ok_inv in Hc as (calls' & Hc' & Hc).
    apply bind_Ok_inv in Hp as (puts' & Hp' & Hp).
    apply (IH calls' puts'); try assumption; [lia|].
    by apply (level_parity m calls puts).
Qed.

Lemma lattice_parity (c p : R) :
  spec_lattice_value call fac = Ok c ->
  spec_lattice_value put fac = Ok p ->
  c - p = spot params * (discount fac * growth) ^ N
          - strike params * discount fac ^ N.
Proof.
  unfold spec_lattice_value. intros Hc Hp.
  apply bind_Ok_inv in Hc as (calls & Hcalls & Hc).
  apply bind_Ok_inv in Hp as (puts & Hputs & Hp).
  apply bind_Ok_inv in Hc as (roots_c & Hrc & Hc).
  apply bind_Ok_inv in Hp as (roots_p & Hrp & Hp).
  pose proof (terminal_parity calls puts Hcalls Hputs) as Hinv.
  assert (HN : (N <= N)%nat) by lia.
  assert (H0 : (0 <= 0)%nat) by lia.
  destruct (levels_parity N calls puts roots_c roots_p HN Hinv Hrc Hrp 0%nat H0)
    as (vc & vp & Hvc & Hvp & Hpar).
  unfold getitem in Hc, Hp. rewrite Hvc in Hc. rewrite Hvp in Hp.
  injection Hc as <-. injection Hp as <-.
  unfold parity_at, underlying in Hpar. simpl in Hpar.
  rewrite Nat.sub_0_r in Hpar. lra.
Qed.

End Parity.

(** The call on the underlying of the two-step sample is priced. *)
Lemma call_sample_price :
  exists c, price_option (european "call" sample) = Ok c.
Proof.
  apply real_priced.
  - unfold _validate_parameters. simpl.
    rewrite !Rleb_false by lra. reflexivity.
  - apply real_probability_in_range; simpl; lra || lia || reflexivity.
Qed.


End RealLattice.

(** ** web_app.py *)

Module WebTheory.
Import MonteCarlo MonteCarloTheory Sandbox Grammar GrammarOutcome Web.

Section Handlers.
Context {F : Type} `{PyFloat F} `{RandomSource F} `{Interpreter F}
        `{Conversions F}.

(** The expression [_extract_parameters] compiles when the payoff field
    holds a non-empty string. *)
Lemma extract_compiles_field (source : gmap string (value F)) (s : string) :
  source !! "payoff" = Some (VStr s) -> s <> "" ->
  _extract_parameters source
  = (payoff_fn <- match build_payoff_function s with
                  | Raise (InvalidPayoffError msg) =>
                      Raise (InvalidPayoffError msg)
                  | outcome => outcome
                  end ;;
     params <- match convert_parameters source with
               | Raise e =>
                   if numeric_failure e then
                     Raise (InvalidMonteCarloParameterError
                              "Inputs must be numeric.")
                   else Raise e
               | Ok params => Ok params
               end ;;
     Ok (params, s, payoff_fn)).
Proof.
  intros Hfield Hs. unfold _extract_parameters, get. rewrite Hfield.
  unfold default, Datatypes.id. cbn [from_option truthy py_str].
  apply String.eqb_neq in Hs. rewrite Hs. reflexivity.
Qed.

Lemma extract_bad_payoff (source : gmap string (value F)) (s : string)
    (body : node) :
  source !! "payoff" = Some (VStr s) -> s <> "" ->
  ast_parse s = Ok (Expression body) ->
  in_grammar body = false ->
  exists msg, _extract_parameters source = Raise (InvalidPayoffError msg).
Proof.
  intros Hfield Hs Hparse Hout.
  rewrite (extract_compiles_field source s Hfield Hs).
  pose proof (build_outcome s body Hparse) as Hbuild.
  rewrite Hout in Hbuild. destruct Hbuild as [msg ->].
  exists msg. reflexivity.
Qed.

(** Conversion reads the request alone. *)
Lemma extract_seeded (source : gmap string (value F))
    (params : MonteCarloParameters F) (expr : string)
    (payoff_fn : F -> result F) :
  blank (source !! "seed") = false ->
  _extract_parameters source = Ok (params, expr, payoff_fn) ->
  exists n, seed params = Some n.
Proof.
  intros Hseed. unfold _extract_parameters. intros Hex.
  apply bind_Ok_inv in Hex as (fn & _ & Hex).
  apply bind_Ok_inv in Hex as (ps & Hps & [= <- _ _]).
  destruct (convert_parameters source) as [ps'|e] eqn:Hconv.
  2:{ destruct (numeric_failure e); discriminate. }
  injection Hps as <-. unfold convert_parameters in Hconv.
  do 5 (apply bind_Ok_inv in Hconv as (? & _ & Hconv)).
  apply bind_Ok_inv in Hconv as (sd & Hsd & [= <-]). simpl.
  destruct (source !! "seed") as [v|]; [|discriminate].
  rewrite Hseed in Hsd.
  apply bind_Ok_inv in Hsd as (n & _ & [= <-]). eauto.
Qed.

Lemma extract_and_price_seeded (source : gmap string (value F))
    (entropy1 entropy2 : Z) :
  blank (source !! "seed") = false ->
  extract_and_price source entropy1 = extract_and_price source entropy2.
Proof.
  intros Hseed. unfold extract_and_price.
  destruct (_extract_parameters source) as [[[params expr] payoff_fn]|e]
    eqn:Hex; [|reflexivity].
  cbn [bind].
  destruct (extract_seeded _ _ _ _ Hseed Hex) as [n Hn].
  rewrite !price_option_monte_carlo_spec, Hn. reflexivity.
Qed.

Lemma priced_is_validated (params : MonteCarloParameters F)
    (payoff_fn : F -> result F) (entropy : Z) (p : F) :
  price_option_monte_carlo params payoff_fn entropy = Ok p ->
  _validate_monte_carlo_parameters params = Ok tt.
Proof.
  unfold price_option_monte_carlo. intros Hp.
  by apply bind_Ok_inv in Hp as ([] & Hvalid & _).
Qed.

End Handlers.
End WebTheory.

Module WebProperties.
Import MonteCarlo Sandbox Grammar GrammarOutcome Web WebTheory.

Section Handlers.
Context {F : Type} `{PyFloat F} `{RandomSource F} `{Interpreter F}
        `{Conversions F}.


(** X10: when the payoff compiles and the spot field cannot be converted,
    the exception of the conversion decides the answer of [price_api]: a
    [TypeError] or [ValueError] becomes a 400 with the message
    "Inputs must be numeric.", and any other exception, such as the
    [OverflowError] of a huge integer, escapes the handler. *)
Theorem unreadable_spot (req : request F) (s : string) (body : node)
    (e : exn) (entropy : Z) :
  is_json req = true ->
  json req !! "payoff" = Some (VStr s) -> s <> "" ->
  ast_parse s = Ok (Expression body) ->
  in_grammar body = true ->
  py_float (get (json req) "spot" default_spot) = Raise e ->
  price_api req entropy
  = if numeric_failure e then
      Ok {| Web.body := ErrorBody "Inputs must be numeric."; status := 400 |}
    else Raise e.
Proof.
  intros Hjson Hfield Hs Hparse Hin Hspot.
  unfold price_api, extract_and_price. rewrite Hjson. cbn [negb].
  rewrite (extract_compiles_field (json req) s Hfield Hs).
  pose proof (build_outcome s body Hparse) as Hbuild.
  rewrite Hin in Hbuild. rewrite Hbuild. cbn [bind].
  unfold convert_parameters. rewrite Hspot. cbn [bind].
  destruct (numeric_failure e) eqn:He; cbn [bind]; [reflexivity|].
  by destruct e.
Qed.

(** X11: a request that carries a seed is answered the same way on every
    run: with a seed field that is neither absent, null nor empty, the
    answers of [price_api] and of [index] do not depend on the entropy. *)
Theorem seeded_requests_agree (req : request F) (entropy1 entropy2 : Z) :
  (blank (F := F) (json req !! "seed") = false ->
   price_api req entropy1 = price_api req entropy2)
  /\ (blank (F := F) ((VStr <$> form req) !! "seed") = false ->
      index req entropy1 = index req entropy2).
Proof.
  split; intros Hseed.
  - unfold price_api.
    by rewrite (extract_and_price_seeded _ entropy1 entropy2 Hseed).
  - unfold index.
    by rewrite (extract_and_price_seeded _ entropy1 entropy2 Hseed).
Qed.

(** X12: [price_api] answers 400 with an error or 200 with a price, and a
    price only for a JSON request whose extracted parameters passed
    validation; the price is the one [price_option_monte_carlo] returned. *)
Theorem api_answers (req : request F) (entropy : Z) (r : response F) :
  price_api req entropy = Ok r ->
  (status r = 400%Z /\ exists msg, Web.body r = ErrorBody msg)
  \/ (status r = 200%Z /\ is_json req = true
      /\ exists params expr payoff_fn p,
           _extract_parameters (json req) = Ok (params, expr, payoff_fn)
           /\ _validate_monte_carlo_parameters params = Ok tt
           /\ price_option_monte_carlo params payoff_fn entropy = Ok p
           /\ Web.body r = PriceBody p).
Proof.
  unfold price_api. destruct (is_json req); cbn [negb].
  2:{ intros [= <-]. left. simpl. eauto. }
  unfold extract_and_price.
  destruct (_extract_parameters (json req))
    as [[[params expr] payoff_fn]|e] eqn:Hex; cbn [bind].
  - destruct (price_option_monte_carlo params payoff_fn entropy)
      as [p|e] eqn:Hp.
    + intros [= <-]. right. simpl. split; [reflexivity|].
      split; [reflexivity|]. exists params, expr, payoff_fn, p.
      split; [reflexivity|]. split; [by eapply priced_is_validated|].
      split; [exact Hp | reflexivity].
    + destruct e; try discriminate; intros [= <-]; left; simpl; eauto.
  - destruct e; try discriminate; intros [= <-]; left; simpl; eauto.
Qed.

(** X13: an absent field is read as its fallback: adding a field that is
    absent with its fallback value changes nothing of what
    [_extract_parameters] returns or raises. *)
Theorem absent_field_is_default (source : gmap string (value F))
    (key : string) (v : value F) :
  (key, v) ∈ field_defaults ->
  source !! key = None ->
  _extract_parameters (<[key := v]> source) = _extract_parameters source.
Proof.
  intros Hin Hnone. unfold field_defaults in Hin.
  repeat (apply elem_of_cons in Hin as [[= -> ->] | Hin]);
    [| | | | | | by apply elem_of_nil in Hin];
    unfold _extract_parameters, convert_parameters, get;
    rewrite ?lookup_insert_eq, ?Hnone;
    rewrite ?lookup_insert_ne by discriminate;
    rewrite ?Hnone; reflexivity.
Qed.

(** X14: the two handlers agree: for the same fields and the same run, the
    page of a POST shows a price exactly when the API answers 200 with that
    price, shows an error exactly when the API answers 400 with that
    message, and an exception escapes one exactly when it escapes the
    other. *)
Theorem handlers_agree (posted api : request F) (entropy : Z) :
  method posted = "POST" ->
  is_json api = true ->
  json api = VStr <$> form posted ->
  match index posted entropy, price_api api entropy with
  | Ok shown, Ok answer =>
      (exists p, page_price shown = Some (format_4f p)
                 /\ page_error shown = None
                 /\ answer = {| Web.body := PriceBody p; status := 200 |})
      \/ (exists msg, page_price shown = None
                      /\ page_error shown = Some msg
                      /\ answer = {| Web.body := ErrorBody msg; status := 400 |})
  | Raise e, Raise e' => e = e'
  | _, _ => False
  end.
Proof.
  intros Hpost Hjson Hsame. unfold index, price_api.
  rewrite Hpost, Hjson, Hsame. simpl.
  destruct (extract_and_price (VStr <$> form posted) entropy) as [p|e].
  - left. eauto.
  - destruct e; try reflexivity; right; eauto.
Qed.

End Handlers.
End WebProperties.

(** ** The further theorems on concrete inputs *)

Module FurtherInstances.
Import RealModel RealFacts RealSamples TableInterpreter.

Local Open Scope R_scope.

Section Payoffs.
Import Sandbox Grammar GrammarProperties.

(** [max(S - 100, 0)] is in the grammar and compiles to its evaluation. *)
Lemma compiles_exactly_the_grammar_witness :
  build_payoff_function (F := R) "max(S - 100, 0)"
  = Ok (fun price => eval_float (Expression vanilla_tree) (payoff_scope price)).
Proof.
  exact (compiles_exactly_the_grammar (F := R) "max(S - 100, 0)" vanilla_tree
           eq_refl).
Defined.

(** [S] occurs in [max(S - 100, 0)] and is bound. *)
Lemma grammar_identifiers_are_bound_witness :
  is_Some (payoff_scope (F := R) 100 !! "S")
  /\ forall other : string,
       is_Some (payoff_scope (F := R) 100 !! other) ->
       other ∈ ["S"; "max"; "min"; "abs"; "math"].
Proof.
  apply (grammar_identifiers_are_bound vanilla_tree 100 "S" Load).
  - reflexivity.
  - vm_compute. do 3 apply list_elem_of_further. apply list_elem_of_here.
Defined.

End Payoffs.

Section Engine.
Import MonteCarlo EngineInputs EngineProperties RealEngine.


End Engine.

Section Lattice.
Import Binomial LatticeInputs LatticeSigns RealLattice.





End Lattice.
End FurtherInstances.

(** ** The handlers on concrete requests *)

Module WebInstances.
Import RationalModel RationalWeb TableInterpreter.
Import MonteCarlo EngineInputs EngineProperties Sandbox Web WebProperties.

(** With no path asked for, pricing is refused before anything is drawn. *)
Lemma monte_carlo_rejects_witness :
  exists msg,
    forall (payoff : Q -> result Q) (entropy : Z),
      price_option_monte_carlo no_paths payoff entropy
      = Raise (InvalidMonteCarloParameterError msg).
Proof.
  apply (monte_carlo_rejects no_paths). do 3 right. simpl. lia.
Defined.


(** A spot of ["abc"] is a [ValueError] of [float]. *)
Lemma unreadable_spot_witness :
  price_api unreadable_request 0
  = Ok {| body := ErrorBody "Inputs must be numeric."; status := 400 |}.
Proof.
  apply (unreadable_spot unreadable_request "max(S - 100, 0)"
           RealSamples.vanilla_tree ValueError 0).
  - reflexivity.
  - vm_compute. reflexivity.
  - discriminate.
  - reflexivity.
  - vm_compute. reflexivity.
  - vm_compute. reflexivity.
Defined.

(** Seed 0, sent as JSON and posted as a form. *)
Lemma seeded_requests_agree_witness :
  price_api sent 1 = price_api sent 2
  /\ index posted 1 = index posted 2.
Proof.
  split.
  - apply (proj1 (seeded_requests_agree sent 1 2)). vm_compute. reflexivity.
  - apply (proj2 (seeded_requests_agree posted 1 2)). vm_compute.
    reflexivity.
Defined.

(** The four seeded paths are priced with status 200. *)
Lemma api_answers_witness :
  exists r,
    price_api sent 0 = Ok r
    /\ status r = 200%Z
    /\ exists params expr payoff_fn p,
         _extract_parameters (json sent) = Ok (params, expr, payoff_fn)
         /\ _validate_monte_carlo_parameters params = Ok tt
         /\ price_option_monte_carlo params payoff_fn 0 = Ok p
         /\ body r = PriceBody p.
Proof.
  destruct (price_api sent 0) as [r|e] eqn:Hr.
  - exists r. split; [reflexivity|].
    destruct (api_answers sent 0 r Hr) as [[Hstatus [msg Hbody]] | Hpriced].
    + vm_compute in Hr. injection Hr as <-. discriminate Hstatus.
    + destruct Hpriced as (Hstatus & _ & Hrest). auto.
  - vm_compute in Hr. discriminate Hr.
Defined.

(** An empty request with the default spot added. *)
Lemma absent_field_is_default_witness :
  _extract_parameters (F := Q) (<["spot" := default_spot]> ∅)
  = _extract_parameters ∅.
Proof.
  apply absent_field_is_default.
  - unfold field_defaults. apply list_elem_of_further, list_elem_of_here.
  - apply lookup_empty.
Defined.

(** The posted form and the same fields sent as JSON show the same price. *)
Lemma handlers_agree_witness :
  match index posted 0, price_api mirrored 0 with
  | Ok shown, Ok answer =>
      (exists p, page_price shown = Some (format_4f p)
                 /\ page_error shown = None
                 /\ answer = {| body := PriceBody p; status := 200 |})
      \/ (exists msg, page_price shown = None
                      /\ page_error shown = Some msg
                      /\ answer = {| body := ErrorBody msg; status := 400 |})
  | Raise e, Raise e' => e = e'
  | _, _ => False
  end.
Proof.
  apply (handlers_agree posted mirrored 0); reflexivity.
Defined.

End WebInstances.
